(** * Nova Defense: the per-frame simulation core of [src/App.tsx]

    A shallow embedding of the game engine (the [INITIAL_STATE] constant,
    [spawnRocket], [handleCanvasClick], [triggerMegaExplosion], the [update]
    tick, [startGame] and [nextLevel]) together with the properties of the
    design document that it satisfies, or fails to satisfy.

    Numbers are JavaScript numbers, that is IEEE 754 binary64 values: they
    are modelled by Rocq's primitive floats, whose operations are the same
    correctly rounded ones.  City and battery objects are shared between
    [INITIAL_STATE] and every game state that was spread from it, and the
    tick mutates them in place: they live in an object store and the game
    state holds their locations.  Rockets, missiles and explosions are also
    mutated in place, but only the state that is being replaced refers to
    the old objects, so they are kept as values inside the lists. *)

From Stdlib Require Import ZArith Floats Uint63.
From stdpp Require Import base list.

Set Warnings "-inexact-float".
Local Open Scope float_scope.

(** ** Numbers *)

(** An array length as a JavaScript number (exact below 2^53, and an
    array has less than 2^32 elements). *)
Definition float_of_nat (n : nat) : float :=
  of_uint63 (Uint63.of_Z (Z.of_nat n)).

(** [Math.floor], as an integer; [None] for NaN and the infinities. *)
Definition Math_floor (f : float) : option Z :=
  match Prim2SF f with
  | S754_zero _ => Some 0%Z
  | S754_finite s m e =>
      let sm := if s then Z.neg m else Z.pos m in
      Some (if (0 <=? e)%Z then sm * 2 ^ e else sm / 2 ^ (- e))%Z
  | _ => None
  end.

(** [arr[i]] for an index computed as a number: [undefined] (here [None])
    when the index is no element of the array. *)
Definition index_at {A} (arr : list A) (i : option Z) : option A :=
  match i with
  | Some z => if (0 <=? z)%Z then arr !! Z.to_nat z else None
  | None => None
  end.

(** The values [x], [x + step], ... of a [for (v = x; v < limit; v += step)]
    loop; [fuel] bounds the number of iterations. *)
Fixpoint for_values (fuel : nat) (v limit step : float) : list float :=
  match fuel with
  | O => []
  | S k => if v <? limit then v :: for_values k (v + step) limit step else []
  end.

(** ** Constants ([src/constants.ts]) *)

Definition GAME_WIDTH : float := 800.
Definition GAME_HEIGHT : float := 600.
Definition ROCKET_SPEED_BASE : float := 0.0007.
Definition PLAYER_MISSILE_SPEED : float := 0.025.
Definition EXPLOSION_MAX_RADIUS : float := 55.
Definition EXPLOSION_GROWTH_SPEED : float := 0.06.
Definition EXPLOSION_DECAY_SPEED : float := 0.015.
Definition SCORE_PER_ROCKET : float := 20.
Definition WIN_SCORE : float := 1000.
Definition BATTERY_CONFIGS : list (float * float) :=
  [(40, 30); (400, 60); (760, 30)].
Definition CITY_COUNT : nat := 6.

(** ** Data model ([types.ts]) *)

Record Point := mkPoint { pt_x : float; pt_y : float }.

(** The [id] strings are template literals: a fixed prefix followed by an
    index or by the result of a [Math.random()] call. *)
Inductive Id :=
| CityId (i : nat)
| BatteryId (i : nat)
| RocketId (u : float)
| MissileId (u : float)
| ExpHitId (u : float)
| ExpPId (u : float)
| ExpRId (u : float)
| MegaExpId (u : float).

Record Rocket := mkRocket {
  r_id : Id; r_pos : Point; r_start : Point; r_target : Point;
  r_progress : float; r_speed : float }.

(** [isGravityBomb] is optional in the interface; every missile that the
    code builds sets it. *)
Record PlayerMissile := mkMissile {
  m_id : Id; m_pos : Point; m_start : Point; m_target : Point;
  m_progress : float; m_speed : float;
  m_originBatteryIndex : Z; m_isGravityBomb : bool }.

Record Explosion := mkExplosion {
  e_id : Id; e_pos : Point; e_radius : float; e_maxRadius : float;
  e_life : float; e_isExpanding : bool }.

Record City := mkCity { c_id : Id; c_pos : Point; c_isDestroyed : bool }.

Record Battery := mkBattery {
  b_id : Id; b_pos : Point; b_missiles : float; b_maxMissiles : float;
  b_isDestroyed : bool }.

Inductive GameStatus := START | PLAYING | WON | LOST.

Global Instance GameStatus_eq_dec : EqDecision GameStatus.
Proof. solve_decision. Defined.

(** A location of the object store. *)
Abbreviation loc := nat.

Record GameState := mkGameState {
  score : float;
  status : GameStatus;
  cities : list loc;
  batteries : list loc;
  rockets : list Rocket;
  playerMissiles : list PlayerMissile;
  explosions : list Explosion;
  level : float }.

(** The object store: the city and battery objects ever allocated. *)
Record Store := mkStore { city_objs : list City; battery_objs : list Battery }.

(** The whole program state: the store, React's current [gameState] and the
    number of [Math.random()] calls made so far. *)
Record World := mkWorld { store : Store; game : GameState; rand_calls : nat }.

Definition deref_cities (st : Store) (refs : list loc) : list City :=
  omap (fun l => city_objs st !! l) refs.

Definition deref_batteries (st : Store) (refs : list loc) : list Battery :=
  omap (fun l => battery_objs st !! l) refs.

(** ** [INITIAL_STATE] *)

Definition initial_city (i : nat) : City :=
  {| c_id := CityId i;
     c_pos := {| pt_x := 120 + float_of_nat i * 110
                         + (if (2 <? i)%nat then 40 else 0);
                 pt_y := GAME_HEIGHT - 20 |};
     c_isDestroyed := false |}.

Definition initial_battery (i : nat) (config : float * float) : Battery :=
  {| b_id := BatteryId i;
     b_pos := {| pt_x := fst config; pt_y := GAME_HEIGHT - 30 |};
     b_missiles := snd config;
     b_maxMissiles := snd config;
     b_isDestroyed := false |}.

(** The objects built when the module is loaded. *)
Definition initial_store : Store :=
  {| city_objs := initial_city <$> seq 0 CITY_COUNT;
     battery_objs := imap initial_battery BATTERY_CONFIGS |}.

(** [INITIAL_STATE] itself: its two arrays hold the objects above. *)
Definition INITIAL_STATE : GameState :=
  {| score := 0;
     status := START;
     cities := seq 0 CITY_COUNT;
     batteries := seq 0 (length BATTERY_CONFIGS);
     rockets := [];
     playerMissiles := [];
     explosions := [];
     level := 50 |}.

(** [useState(INITIAL_STATE)] on the first render. *)
Definition initial_world : World :=
  {| store := initial_store; game := INITIAL_STATE; rand_calls := 0 |}.

(** ** The simulation *)

Section Simulation.

(** The sequence of values that the successive [Math.random()] calls
    return. *)
Variable random_seq : nat -> float.

Definition Math_random (n : nat) : float * nat := (random_seq n, S n).

(** *** [spawnRocket] *)

Definition spawn_targets (st : Store) (g : GameState) : list Point :=
  (c_pos <$> List.filter (fun c => negb (c_isDestroyed c))
                         (deref_cities st (cities g)))
  ++ (b_pos <$> List.filter (fun b => negb (b_isDestroyed b))
                            (deref_batteries st (batteries g))).

(** The callback reads the cities, the batteries and the level of the
    rendered [gameState]; commands and ticks do not interleave, so that is
    the state the tick starts from.  With [Math.random()] in [[0, 1)] the
    index is one of [targets]; for another value the source reads
    [undefined.pos] and throws, which is rendered here as no rocket. *)
Definition spawnRocket (st : Store) (g : GameState) (n : nat)
  : option Rocket * nat :=
  let '(u0, n) := Math_random n in
  let start := {| pt_x := u0 * GAME_WIDTH; pt_y := 0 |} in
  let targets := spawn_targets st g in
  if decide (length targets = 0%nat) then (None, n) else
  let '(u1, n) := Math_random n in
  match index_at targets (Math_floor (u1 * float_of_nat (length targets))) with
  | None => (None, n)
  | Some target =>
      let '(u2, n) := Math_random n in
      let '(u3, n) := Math_random n in
      (Some {| r_id := RocketId u2;
               r_pos := start;
               r_start := start;
               r_target := target;
               r_progress := 0;
               r_speed := ROCKET_SPEED_BASE + u3 * 0.0005
                          + level g * 0.0002 |}, n)
  end.

(** *** [handleCanvasClick], from the logical point [(x, y)] on

    What comes before in the source (the right-button filter and the
    mapping of the client coordinates to the 800 x 600 field) belongs to
    the presentation layer. *)

(** The [forEach] that looks for the closest battery: [i] is the index of
    the head of [bs], [best] and [minDist] the two variables of the loop. *)
Fixpoint closest_battery (bs : list Battery) (x : float) (i : Z)
    (best : Z) (minDist : float) : Z * float :=
  match bs with
  | [] => (best, minDist)
  | b :: bs' =>
      let dist := PrimFloat.abs (pt_x (b_pos b) - x) in
      if negb (b_isDestroyed b) && (dist <? minDist)
      then closest_battery bs' x (i + 1)%Z i dist
      else closest_battery bs' x (i + 1)%Z best minDist
  end.

Definition bestBatteryIndex (bs : list Battery) (x : float) : Z :=
  fst (closest_battery bs x 0%Z (-1)%Z infinity).

Definition new_missile (u : float) (battery : Battery) (target : Point)
    (origin : Z) (gravity : bool) : PlayerMissile :=
  {| m_id := MissileId u;
     m_pos := b_pos battery;
     m_start := b_pos battery;
     m_target := target;
     m_progress := 0;
     m_speed := PLAYER_MISSILE_SPEED;
     m_originBatteryIndex := origin;
     m_isGravityBomb := gravity |}.

(** The [offsets.forEach] of the triple shot. *)
Fixpoint spread_shot (offsets : list float) (battery : Battery) (x y : float)
    (origin : Z) (n : nat) : list PlayerMissile * nat :=
  match offsets with
  | [] => ([], n)
  | offsetX :: rest =>
      let '(u, n) := Math_random n in
      let '(ms, n) := spread_shot rest battery x y origin n in
      (new_missile u battery {| pt_x := x + offsetX; pt_y := y |} origin false
         :: ms, n)
  end.

Definition with_playerMissiles (g : GameState) (ms : list PlayerMissile) :=
  {| score := score g; status := status g; cities := cities g;
     batteries := batteries g; rockets := rockets g; playerMissiles := ms;
     explosions := explosions g; level := level g |}.

Definition handleCanvasClick (x y : float) (isGravity : bool) (w : World)
  : World :=
  let g := game w in
  if decide (status g <> PLAYING) then w else
  let bs := deref_batteries (store w) (batteries g) in
  let best := bestBatteryIndex bs x in
  if decide (best = (-1)%Z) then w else
  match index_at bs (Some best) with
  | None => w
  | Some battery =>
      let '(newMissiles, n) :=
        if negb isGravity
        then spread_shot [-25; 0; 25] battery x y best (rand_calls w)
        else let '(u, n) := Math_random (rand_calls w) in
             ([new_missile u battery {| pt_x := x; pt_y := y |} best isGravity],
              n) in
      {| store := store w;
         game := with_playerMissiles g (playerMissiles g ++ newMissiles);
         rand_calls := n |}
  end.

(** *** [triggerMegaExplosion] *)

Definition new_explosion (i : Id) (p : Point) (maxRadius : float) : Explosion :=
  {| e_id := i; e_pos := p; e_radius := 0; e_maxRadius := maxRadius;
     e_life := 1; e_isExpanding := true |}.

(** The inner [for] over [y], for one [x]. *)
Fixpoint mega_column (x : float) (ys : list float) (n : nat)
  : list Explosion * nat :=
  match ys with
  | [] => ([], n)
  | y :: ys' =>
      let '(u, n) := Math_random n in
      let '(es, n) := mega_column x ys' n in
      (new_explosion (MegaExpId u) {| pt_x := x; pt_y := y |} 300 :: es, n)
  end.

(** The outer [for] over [x]. *)
Fixpoint mega_grid (xs : list float) (n : nat) : list Explosion * nat :=
  match xs with
  | [] => ([], n)
  | x :: xs' =>
      let '(col, n) := mega_column x (for_values 8 100 GAME_HEIGHT 200) n in
      let '(es, n) := mega_grid xs' n in
      (col ++ es, n)
  end.

Definition triggerMegaExplosion (w : World) : World :=
  let prev := game w in
  if decide (status prev <> PLAYING) then w else
  let clearedRocketsCount := float_of_nat (length (rockets prev)) in
  let '(newExplosions, n) :=
    mega_grid (for_values 8 100 GAME_WIDTH 200) (rand_calls w) in
  {| store := store w;
     game := {| score := score prev + clearedRocketsCount * SCORE_PER_ROCKET;
                status := status prev;
                cities := cities prev;
                batteries := batteries prev;
                rockets := [];
                playerMissiles := playerMissiles prev;
                explosions := explosions prev ++ newExplosions;
                level := level prev |};
     rand_calls := n |}.

(** *** [update]: one tick *)

(** Step 2 of the tick.  [c.isDestroyed = true] and [b.isDestroyed = true]
    write to the shared objects. *)
Definition destroy_city (c : City) : City :=
  {| c_id := c_id c; c_pos := c_pos c; c_isDestroyed := true |}.

Definition destroy_battery (b : Battery) : Battery :=
  {| b_id := b_id b; b_pos := b_pos b; b_missiles := b_missiles b;
     b_maxMissiles := b_maxMissiles b; b_isDestroyed := true |}.

(** What the two [forEach] callbacks do is the same for cities and
    batteries: both are entities with a position and an [isDestroyed]
    flag. *)
Class Target (A : Type) := {
  tg_pos : A -> Point;
  tg_isDestroyed : A -> bool;
  tg_destroy : A -> A;
  tg_destroy_pos : forall a, tg_pos (tg_destroy a) = tg_pos a;
  tg_destroy_flag : forall a, tg_isDestroyed (tg_destroy a) = true }.

Global Instance City_Target : Target City :=
  {| tg_pos := c_pos; tg_isDestroyed := c_isDestroyed;
     tg_destroy := destroy_city;
     tg_destroy_pos := fun _ => eq_refl;
     tg_destroy_flag := fun _ => eq_refl |}.

Global Instance Battery_Target : Target Battery :=
  {| tg_pos := b_pos; tg_isDestroyed := b_isDestroyed;
     tg_destroy := destroy_battery;
     tg_destroy_pos := fun _ => eq_refl;
     tg_destroy_flag := fun _ => eq_refl |}.

(** [if (!c.isDestroyed && Math.abs(c.pos.x - r.target.x) < 20)
    c.isDestroyed = true] for the object at location [l]. *)
Definition hit {A} `{Target A} (tx : float) (objs : list A) (l : loc)
  : list A :=
  match objs !! l with
  | Some o =>
      if negb (tg_isDestroyed o)
         && (PrimFloat.abs (pt_x (tg_pos o) - tx) <? 20)
      then alter tg_destroy l objs else objs
  | None => objs
  end.

(** The two [forEach] loops run when a rocket lands on [target]. *)
Definition impact (target : Point) (cs bs : list loc) (st : Store) : Store :=
  {| city_objs := foldl (hit (pt_x target)) (city_objs st) cs;
     battery_objs := foldl (hit (pt_x target)) (battery_objs st) bs |}.

Definition move_rocket (r : Rocket) : Rocket :=
  let p := r_progress r + r_speed r in
  {| r_id := r_id r;
     r_pos := {| pt_x := pt_x (r_start r)
                         + (pt_x (r_target r) - pt_x (r_start r)) * p;
                 pt_y := pt_y (r_start r)
                         + (pt_y (r_target r) - pt_y (r_start r)) * p |};
     r_start := r_start r; r_target := r_target r;
     r_progress := p; r_speed := r_speed r |}.

(** The loop runs from the last index down to 0, so the tail of the list is
    handled before its head; [splice(i, 1)] drops the head, [push] appends
    to the explosions created so far. *)
Fixpoint update_rockets (rs : list Rocket) (cs bs : list loc) (st : Store)
    (n : nat) : list Rocket * Store * list Explosion * nat :=
  match rs with
  | [] => ([], st, [], n)
  | r0 :: rest =>
      let '(rest', st, pushed, n) := update_rockets rest cs bs st n in
      let r := move_rocket r0 in
      if 1 <=? r_progress r then
        let st := impact (r_target r) cs bs st in
        let '(u, n) := Math_random n in
        (rest', st,
         pushed ++ [new_explosion (ExpHitId u) (r_target r)
                                  EXPLOSION_MAX_RADIUS], n)
      else (r :: rest', st, pushed, n)
  end.

(** Step 3 of the tick. *)
Definition move_missile (m : PlayerMissile) : PlayerMissile :=
  let p := m_progress m + m_speed m in
  {| m_id := m_id m;
     m_pos := {| pt_x := pt_x (m_start m)
                         + (pt_x (m_target m) - pt_x (m_start m)) * p;
                 pt_y := pt_y (m_start m)
                         + (pt_y (m_target m) - pt_y (m_start m)) * p |};
     m_start := m_start m; m_target := m_target m;
     m_progress := p; m_speed := m_speed m;
     m_originBatteryIndex := m_originBatteryIndex m;
     m_isGravityBomb := m_isGravityBomb m |}.

Fixpoint update_missiles (ms : list PlayerMissile) (n : nat)
  : list PlayerMissile * list Explosion * nat :=
  match ms with
  | [] => ([], [], n)
  | m0 :: rest =>
      let '(rest', pushed, n) := update_missiles rest n in
      let m := move_missile m0 in
      if 1 <=? m_progress m then
        let '(u, n) := Math_random n in
        (rest',
         pushed ++ [new_explosion (ExpPId u) (m_target m)
                      (if m_isGravityBomb m then EXPLOSION_MAX_RADIUS * 2
                       else EXPLOSION_MAX_RADIUS)], n)
      else (m :: rest', pushed, n)
  end.

(** Step 4 of the tick: the radius of one explosion.  [None] is the
    [splice(i, 1); continue] of an explosion that has faded away. *)
Definition with_radius (e : Explosion) (radius : float) (expanding : bool) :=
  {| e_id := e_id e; e_pos := e_pos e; e_radius := radius;
     e_maxRadius := e_maxRadius e; e_life := e_life e;
     e_isExpanding := expanding |}.

Definition evolve (e : Explosion) : option Explosion :=
  if e_isExpanding e then
    let radius := e_radius e + EXPLOSION_GROWTH_SPEED * e_maxRadius e in
    Some (with_radius e radius
            (if e_maxRadius e <=? radius then false else true))
  else
    let radius := e_radius e - EXPLOSION_DECAY_SPEED * e_maxRadius e in
    if radius <=? 0 then None else Some (with_radius e radius false).

(** The distance of a rocket to the centre of an explosion; [dx ** 2] is
    the correctly rounded square. *)
Definition distance (r : Rocket) (e : Explosion) : float :=
  let dx := pt_x (r_pos r) - pt_x (e_pos e) in
  let dy := pt_y (r_pos r) - pt_y (e_pos e) in
  PrimFloat.sqrt (dx * dx + dy * dy).

Definition with_pos (r : Rocket) (p : Point) : Rocket :=
  {| r_id := r_id r; r_pos := p; r_start := r_start r;
     r_target := r_target r; r_progress := r_progress r;
     r_speed := r_speed r |}.

(** The pull of a gravity explosion on a rocket at distance [dist]. *)
Definition pull (e : Explosion) (r : Rocket) (dist : float) : Rocket :=
  let dx := pt_x (r_pos r) - pt_x (e_pos e) in
  let dy := pt_y (r_pos r) - pt_y (e_pos e) in
  let force := (e_radius e * 2 - dist) / (e_radius e * 2) * 2 in
  with_pos r {| pt_x := pt_x (r_pos r) - (dx / dist) * force;
                pt_y := pt_y (r_pos r) - (dy / dist) * force |}.

(** The body of the inner loop, up to the kill test: the rocket as the
    pull leaves it. *)
Definition attract (e : Explosion) (isGravity : bool) (r : Rocket) : Rocket :=
  let dist := distance r e in
  if isGravity && (dist <? e_radius e * 2) then pull e r dist else r.

(** The inner loop of step 4: one explosion against every rocket, again
    from the last rocket to the first. *)
Fixpoint hit_rockets (e : Explosion) (isGravity : bool) (rs : list Rocket)
    (nextScore : float) (n : nat)
  : list Rocket * float * list Explosion * nat :=
  match rs with
  | [] => ([], nextScore, [], n)
  | r0 :: rest =>
      let '(rest', nextScore, pushed, n) :=
        hit_rockets e isGravity rest nextScore n in
      let dist := distance r0 e in
      let r := attract e isGravity r0 in
      if dist <? e_radius e then
        let '(u, n) := Math_random n in
        (rest', nextScore + SCORE_PER_ROCKET,
         pushed ++ [new_explosion (ExpRId u) (r_pos r)
                                  (EXPLOSION_MAX_RADIUS * 0.8)], n)
      else (r :: rest', nextScore, pushed, n)
  end.

(** The outer loop of step 4 over the explosions that exist when it
    starts.  The explosions pushed while it runs sit behind the index of
    the loop and are not visited; they are returned apart. *)
Fixpoint update_explosions (es : list Explosion) (rs : list Rocket)
    (nextScore : float) (n : nat)
  : list Explosion * list Explosion * list Rocket * float * nat :=
  match es with
  | [] => ([], [], rs, nextScore, n)
  | e0 :: rest =>
      let '(rest', pushed, rs, nextScore, n) :=
        update_explosions rest rs nextScore n in
      let isGravity := EXPLOSION_MAX_RADIUS <? e_maxRadius e0 in
      match evolve e0 with
      | None => (rest', pushed, rs, nextScore, n)
      | Some e =>
          let '(rs, nextScore, secondary, n) :=
            hit_rockets e isGravity rs nextScore n in
          (e :: rest', pushed ++ secondary, rs, nextScore, n)
      end
  end.

(** [nextBatteries.every(b => b.isDestroyed)]. *)
Definition all_batteries_destroyed (st : Store) (bs : list loc) : bool :=
  forallb b_isDestroyed (deref_batteries st bs).

Definition next_status (prev : GameStatus) (nextScore targetScore : float)
    (lost : bool) : GameStatus :=
  if targetScore <=? nextScore then WON
  else if lost then LOST else prev.

(** Step 1 of the tick: the rockets that step 2 works on. *)
Definition spawn_phase (w : World) : list Rocket * nat :=
  let prev := game w in
  let '(u, n) := Math_random (rand_calls w) in
  let '(spawned, n) :=
    if u <? 0.015 + level prev * 0.003
    then spawnRocket (store w) prev n else (None, n) in
  (rockets prev ++ match spawned with Some r => [r] | None => [] end, n).

Definition update (w : World) : World :=
  let prev := game w in
  if decide (status prev <> PLAYING) then w else
  (* 1. Spawn rockets *)
  let '(nextRockets, n) := spawn_phase w in
  (* 2. Update Rockets *)
  let '(nextRockets, st, hits, n) :=
    update_rockets nextRockets (cities prev) (batteries prev) (store w) n in
  (* 3. Update Player Missiles *)
  let '(nextPlayerMissiles, blasts, n) :=
    update_missiles (playerMissiles prev) n in
  (* 4. Update Explosions *)
  let '(nextExplosions, pushed, nextRockets, nextScore, n) :=
    update_explosions (explosions prev ++ hits ++ blasts) nextRockets
                      (score prev) n in
  (* Win/Loss conditions *)
  let targetScore := level prev * WIN_SCORE in
  let nextStatus :=
    next_status (status prev) nextScore targetScore
                (all_batteries_destroyed st (batteries prev)) in
  {| store := st;
     game := {| score := nextScore;
                status := nextStatus;
                cities := cities prev;
                batteries := batteries prev;
                rockets := nextRockets;
                playerMissiles := nextPlayerMissiles;
                explosions := nextExplosions ++ pushed;
                level := level prev |};
     rand_calls := n |}.

(** *** [startGame] and [nextLevel] *)

(** [{...INITIAL_STATE, status: 'PLAYING'}]: the arrays of [INITIAL_STATE],
    hence its objects, as they are in the store by now. *)
Definition startGame (w : World) : World :=
  {| store := store w;
     game := {| score := score INITIAL_STATE;
                status := PLAYING;
                cities := cities INITIAL_STATE;
                batteries := batteries INITIAL_STATE;
                rockets := rockets INITIAL_STATE;
                playerMissiles := playerMissiles INITIAL_STATE;
                explosions := explosions INITIAL_STATE;
                level := level INITIAL_STATE |};
     rand_calls := rand_calls w |}.

Definition restore_battery (b : Battery) : Battery :=
  {| b_id := b_id b; b_pos := b_pos b; b_missiles := b_maxMissiles b;
     b_maxMissiles := b_maxMissiles b; b_isDestroyed := false |}.

(** [prev.batteries.map(...)] builds new battery objects: they are
    allocated behind the ones the store has. *)
Definition nextLevel (w : World) : World :=
  let prev := game w in
  let restored :=
    restore_battery <$> deref_batteries (store w) (batteries prev) in
  let base := length (battery_objs (store w)) in
  {| store := {| city_objs := city_objs (store w);
                 battery_objs := battery_objs (store w) ++ restored |};
     game := {| score := score prev;
                status := PLAYING;
                cities := cities prev;
                batteries := seq base (length restored);
                rockets := [];
                playerMissiles := [];
                explosions := [];
                level := level prev + 1 |};
     rand_calls := rand_calls w |}.

(** *** Commands and runs *)

Inductive Command :=
| Start
| Fire (x y : float) (isGravity : bool)
| AreaClear
| AdvanceLevel
| Tick.

Definition exec (w : World) (c : Command) : World :=
  match c with
  | Start => startGame w
  | Fire x y isGravity => handleCanvasClick x y isGravity w
  | AreaClear => triggerMegaExplosion w
  | AdvanceLevel => nextLevel w
  | Tick => update w
  end.

Definition run (cmds : list Command) : World := foldl exec initial_world cmds.

End Simulation.

(** ** Auxiliary notions *)

(** *** Firing *)

(** The horizontal distance of a battery to the abscissa of a click. *)
Definition reach (x : float) (b : Battery) : float :=
  PrimFloat.abs (pt_x (b_pos b) - x).

(** What the search for the closest battery knows after the batteries
    [seen]: none of the standing ones is closer than [minDist], and [best]
    is either still -1 or the index of a standing battery at that
    distance, which is finite. *)
Definition closest_so_far (x : float) (seen : list Battery) (best : Z)
    (minDist : float) : Prop :=
  (forall b, In b seen -> b_isDestroyed b = false ->
             (reach x b <? minDist) = false) /\
  ((best = (-1)%Z /\ minDist = infinity) \/
   (exists b, (0 <= best)%Z /\ seen !! Z.to_nat best = Some b /\
              b_isDestroyed b = false /\ minDist = reach x b /\
              (reach x b <? infinity) = true)).


(** The same world with other missiles in flight. *)
Definition with_missiles (w : World) (ms : list PlayerMissile) : World :=
  {| store := store w; game := with_playerMissiles (game w) ms;
     rand_calls := rand_calls w |}.

(** *** The area clear *)


(** *** Flights and impacts *)

(** A rocket, or a missile, that has come to the end of its flight. *)
Definition landed (r : Rocket) : bool := 1 <=? r_progress r.

Definition arrived (m : PlayerMissile) : bool := 1 <=? m_progress m.

(** A rocket after some pulls: only its position may differ. *)
Definition same_flight (r r' : Rocket) : Prop :=
  r_id r' = r_id r /\ r_start r' = r_start r /\ r_target r' = r_target r /\
  r_progress r' = r_progress r /\ r_speed r' = r_speed r.

(** The target [o] stands within the horizontal tolerance of an impact at
    abscissa [tx]. *)
Definition near {A} `{Target A} (tx : float) (o : A) : bool :=
  PrimFloat.abs (pt_x (tg_pos o) - tx) <? 20.

(** A city or a battery at a later time: where it was, and destroyed if
    it was. *)
Definition later {A} `{Target A} (o o' : A) : Prop :=
  tg_pos o' = tg_pos o /\
  (tg_isDestroyed o = true -> tg_isDestroyed o' = true).

(** The store at a later time: every object is still there, [later]. *)
Definition store_later (st st' : Store) : Prop :=
  (forall l o, city_objs st !! l = Some o ->
     exists o', city_objs st' !! l = Some o' /\ later o o') /\
  (forall l o, battery_objs st !! l = Some o ->
     exists o', battery_objs st' !! l = Some o' /\ later o o').

(** *** Explosions *)

(** An explosion without its [id]. *)
Definition shape (e : Explosion) : Point * float * float * bool :=
  (e_pos e, e_radius e, e_maxRadius e, e_isExpanding e).

(** A rocket within the kill radius of an explosion, where it is when the
    explosion meets it. *)
Definition inside (e : Explosion) (r : Rocket) : bool :=
  distance r e <? e_radius e.

(** The kill test as the design document words it: on the distance of the
    rocket as the pull of this explosion has left it. *)
Definition kill_test_after_pull (e : Explosion) (isGravity : bool)
    (r : Rocket) : bool :=
  distance (attract e isGravity r) e <? e_radius e.

(** [evolve] on the radius and the phase alone, for an explosion of maximal
    radius [mr]. *)
Definition grow (mr radius : float) (expanding : bool)
  : option (float * bool) :=
  if expanding then
    let radius := radius + EXPLOSION_GROWTH_SPEED * mr in
    Some (radius, if mr <=? radius then false else true)
  else
    let radius := radius - EXPLOSION_DECAY_SPEED * mr in
    if radius <=? 0 then None else Some (radius, false).

(** The radius and the phase of an explosion of maximal radius [mr] that
    has been through [k] ticks. *)
Fixpoint trajectory (mr : float) (k : nat) : option (float * bool) :=
  match k with
  | O => Some (0, true)
  | S k' =>
      match trajectory mr k' with
      | Some (radius, expanding) => grow mr radius expanding
      | None => None
      end
  end.

(** The maximal radii that the code gives to an explosion: on the impact of
    a rocket or of a plain missile, on that of a gravity bomb, on a kill,
    and in the area clear. *)
Definition radii : list float :=
  [EXPLOSION_MAX_RADIUS; EXPLOSION_MAX_RADIUS * 2;
   EXPLOSION_MAX_RADIUS * 0.8; 300].

(** An explosion as the code creates it. *)
Definition fresh (e : Explosion) : Prop :=
  e_radius e = 0 /\ e_isExpanding e = true /\ In (e_maxRadius e) radii.

(** An explosion that was created so and has been through some ticks. *)
Definition on_trajectory (e : Explosion) : Prop :=
  In (e_maxRadius e) radii /\
  exists k, trajectory (e_maxRadius e) k = Some (e_radius e, e_isExpanding e).

(** The bounds of the radius. *)
Definition radius_ok (mr radius : float) (expanding : bool) : bool :=
  (0 <=? radius) && (radius <? mr + EXPLOSION_GROWTH_SPEED * mr)
  && (if expanding then radius <? mr else 0 <? radius).

Definition trajectory_ok (mr : float) (k : nat) : bool :=
  match trajectory mr k with
  | Some (radius, expanding) => radius_ok mr radius expanding
  | None => true
  end.

(** *** The order of the numbers *)

(** The comparison of two finite numbers of the same sign, as [SFcompare]
    performs it: by exponent, then by mantissa. *)
Definition lex (f : comparison -> comparison) (e1 : Z) (m1 : positive)
    (e2 : Z) (m2 : positive) : comparison :=
  match (e1 ?= e2)%Z with
  | Eq => f (m1 ?= m2)%positive
  | Lt => f Lt
  | Gt => f Gt
  end.

(** ** Scenarios *)

(** No rocket is ever spawned: every [Math.random()] call returns 0.5. *)
Definition quiet : nat -> float := fun _ => 0.5.

(** The first three ticks each spawn a rocket, aimed at the batteries 0, 1
    and 2 in turn. *)
Definition three_rockets : nat -> float := fun n =>
  match n with
  | 0%nat => 0 | 2%nat => 0.7
  | 5%nat => 0 | 7%nat => 0.8
  | 10%nat => 0 | 12%nat => 0.9
  | _ => 0.5
  end.

(** The first tick spawns a rocket that falls from (400, 0) on battery 1. *)
Definition one_rocket : nat -> float := fun n =>
  match n with 0%nat => 0 | 2%nat => 0.8 | _ => 0.5 end.

(** The game of [three_rockets] one tick before the first rocket lands on
    battery 0, and once the three rockets have landed, one on each
    battery. *)
Definition before_impact : World :=
  run three_rockets (Start :: repeat Tick 91).

Definition lost_game : World :=
  run three_rockets (Start :: repeat Tick 95).

(** The game of [one_rocket] with a gravity bomb on its way to the point
    [(400, y)], one tick before it goes off. *)
Definition before_blast (y : float) : World :=
  run one_rocket (Start :: Tick :: Fire 400 y true :: repeat Tick 39).

(** The ordinate at which the rocket of [one_rocket] is 41 ticks after the
    start of the game, when that bomb goes off. *)
Definition meeting_point : float := 255.90150000000008.

(** The area clear followed by 17 ticks. *)
Definition after_area_clear : World :=
  run quiet (Start :: AreaClear :: repeat Tick 17).

(** A gravity explosion in the first tick of its life, and a rocket on its
    way to city 3 that is 7 units below its centre. *)
Definition gravity_blast : Explosion :=
  {| e_id := ExpPId 0.5; e_pos := {| pt_x := 490; pt_y := 283 |};
     e_radius := 0 + EXPLOSION_GROWTH_SPEED * (EXPLOSION_MAX_RADIUS * 2);
     e_maxRadius := EXPLOSION_MAX_RADIUS * 2;
     e_life := 1; e_isExpanding := true |}.

Definition falling_rocket : Rocket :=
  {| r_id := RocketId 0.5; r_pos := {| pt_x := 490; pt_y := 290 |};
     r_start := {| pt_x := 490; pt_y := 0 |};
     r_target := {| pt_x := 490; pt_y := 580 |};
     r_progress := 0.5; r_speed := 0.0107 |}.

(** The same rocket at the very centre of the explosion. *)
Definition centred_rocket : Rocket :=
  with_pos falling_rocket (e_pos gravity_blast).

(** A missile that has just been fired from battery 0. *)
Definition spare_missile : PlayerMissile :=
  new_missile 0.5 (initial_battery 0 (40, 30)) (mkPoint 300 200) 0 false.

(** ** Notions for the further properties *)

(** Every object of [objs] is still there in [objs'], with the same [f]. *)
Definition kept {A B} (f : A -> B) (objs objs' : list A) : Prop :=
  forall l o, objs !! l = Some o ->
    exists o', objs' !! l = Some o' /\ f o' = f o.

(** What a city, or a battery, is built with: all but the [isDestroyed]
    flag. *)
Definition city_build (c : City) : Id * Point := (c_id c, c_pos c).

Definition battery_build (b : Battery) : Id * Point * float * float :=
  (b_id b, b_pos b, b_missiles b, b_maxMissiles b).

(** The same world with other rockets. *)
Definition with_rockets (w : World) (rs : list Rocket) : World :=
  {| store := store w;
     game := {| score := score (game w); status := status (game w);
                cities := cities (game w); batteries := batteries (game w);
                rockets := rs; playerMissiles := playerMissiles (game w);
                explosions := explosions (game w);
                level := level (game w) |};
     rand_calls := rand_calls w |}.

(** The commands that start a game or a level. *)
Definition starts (c : Command) : bool :=
  match c with Start | AdvanceLevel => true | _ => false end.

(** The positions of the six cities and of the three batteries. *)
Definition city_positions : list Point :=
  [mkPoint 120 580; mkPoint 230 580; mkPoint 340 580;
   mkPoint 490 580; mkPoint 600 580; mkPoint 710 580].

Definition battery_positions : list Point :=
  [mkPoint 40 570; mkPoint 400 570; mkPoint 760 570].

(** An explosion after [k] ticks, if it is still there. *)
Fixpoint aged (k : nat) (e : Explosion) : option Explosion :=
  match k with
  | O => Some e
  | S k' => match aged k' e with Some e' => evolve e' | None => None end
  end.

(** The number of ticks that an explosion of maximal radius [mr] lasts. *)
Definition lifetime (mr : float) : nat :=
  if mr =? EXPLOSION_MAX_RADIUS * 0.8 then 86%nat else 85%nat.

(** The progress of a missile that has been through [k] ticks. *)
Definition missile_progress (k : nat) : float :=
  Nat.iter k (fun p => p + PLAYER_MISSILE_SPEED) 0.

(** The cities and the batteries of the game, and the objects of
    [INITIAL_STATE], are built as at the beginning. *)
Definition layout (w : World) : Prop :=
  cities (game w) = seq 0 CITY_COUNT /\
  length (batteries (game w)) = 3%nat /\
  city_build <$> deref_cities (store w) (seq 0 CITY_COUNT)
  = city_build <$> city_objs initial_store /\
  battery_build <$> deref_batteries (store w) (seq 0 3)
  = battery_build <$> battery_objs initial_store /\
  battery_build <$> deref_batteries (store w) (batteries (game w))
  = battery_build <$> battery_objs initial_store.

(** A missile that was fired [k] ticks ago, with [k] below 40. *)
Definition in_flight (m : PlayerMissile) : Prop :=
  m_speed m = PLAYER_MISSILE_SPEED /\
  exists k, (k < 40)%nat /\ m_progress m = missile_progress k.


(** What the trajectory of an explosion of maximal radius [mr] is at tick
    [k]: there as long as [k] is below the lifetime, expanding as long as
    [k] is below 17. *)
Definition lifetime_ok (mr : float) (k : nat) : bool :=
  match trajectory mr k with
  | Some (_, expanding) =>
      (k <? lifetime mr)%nat && Bool.eqb expanding (k <? 17)%nat
  | None => negb (k <? lifetime mr)%nat
  end.

(** What the search for the closest battery also knows after the batteries
    [seen]: every standing battery before [best] is farther than
    [minDist], unless its distance is not a number. *)
Definition leftmost_so_far (x : float) (seen : list Battery) (best : Z)
    (minDist : float) : Prop :=
  forall j b, seen !! j = Some b -> b_isDestroyed b = false ->
    is_nan (reach x b) = false -> (Z.of_nat j < best)%Z ->
    (minDist <? reach x b) = true.

(** * Properties *)

(** ** The order of the numbers *)

Lemma lex_trans (f : comparison -> comparison) (ea eb ec : Z)
    (ma mb mc : positive) :
  f = (fun c => c) \/ f = CompOpp ->
  lex f ea ma eb mb = Lt -> lex f eb mb ec mc = Lt -> lex f ea ma ec mc = Lt.
Proof.
  unfold lex. intros Hf.
  destruct (Z.compare_spec ea eb), (Z.compare_spec eb ec),
           (Z.compare_spec ea ec);
  destruct (Pos.compare_spec ma mb), (Pos.compare_spec mb mc),
           (Pos.compare_spec ma mc);
  destruct Hf; subst f; simpl; intros; try discriminate; try reflexivity; lia.
Qed.

Lemma is_Lt_lex_trans (f : comparison -> comparison) (ea eb ec : Z)
    (ma mb mc : positive) :
  f = (fun c => c) \/ f = CompOpp ->
  match lex f ea ma eb mb with Lt => true | _ => false end = true ->
  match lex f eb mb ec mc with Lt => true | _ => false end = true ->
  match lex f ea ma ec mc with Lt => true | _ => false end = true.
Proof.
  intros Hf Hab Hbc. rewrite (lex_trans f ea eb ec ma mb mc); auto.
  - destruct (lex f ea ma eb mb); congruence.
  - destruct (lex f eb mb ec mc); congruence.
Qed.

Lemma SFltb_trans (a b c : spec_float) :
  SFltb a b = true -> SFltb b c = true -> SFltb a c = true.
Proof.
  unfold SFltb, SFcompare.
  destruct a as [sa|sa| |sa ma ea], b as [sb|sb| |sb mb eb],
           c as [sc|sc| |sc mc ec];
    try destruct sa; try destruct sb; try destruct sc;
    try discriminate; try reflexivity.
  - apply (is_Lt_lex_trans CompOpp ea eb ec ma mb mc). now right.
  - apply (is_Lt_lex_trans (fun c => c) ea eb ec ma mb mc). now left.
Qed.

Lemma SFltb_irrefl (a : spec_float) : SFltb a a = false.
Proof.
  unfold SFltb, SFcompare.
  destruct a as [s|s| |s m e]; try destruct s; try reflexivity;
    rewrite Z.compare_refl, Pos.compare_cont_refl; reflexivity.
Qed.

Lemma ltb_irrefl (a : float) : (a <? a) = false.
Proof. rewrite FloatAxioms.ltb_spec. apply SFltb_irrefl. Qed.

Lemma ltb_trans (a b c : float) :
  (a <? b) = true -> (b <? c) = true -> (a <? c) = true.
Proof. rewrite !FloatAxioms.ltb_spec. apply SFltb_trans. Qed.

(** What is not below the new minimum was not below the old one. *)
Lemma not_ltb_smaller (a b c : float) :
  (a <? c) = false -> (b <? c) = true -> (a <? b) = false.
Proof.
  intros Hac Hbc. destruct (a <? b) eqn:Hab; [|reflexivity].
  rewrite (ltb_trans a b c Hab Hbc) in Hac. discriminate.
Qed.

(** ** The tick *)

(** Names the results of the four steps of a tick of a game that is being
    played. *)
Ltac tick_steps rnd w :=
  unfold update;
  destruct (decide (status (game w) <> PLAYING)) as [?|_]; [congruence|];
  destruct (spawn_phase rnd w) as [rs0 n0] eqn:Hspawn;
  destruct (update_rockets rnd rs0 (cities (game w))
              (batteries (game w)) (store w) n0)
    as [[[rs1 st1] hits] n1] eqn:Hrockets;
  destruct (update_missiles rnd (playerMissiles (game w)) n1)
    as [[ms1 blasts] n2] eqn:Hmissiles;
  destruct (update_explosions rnd (explosions (game w) ++ hits ++ blasts)
              rs1 (score (game w)) n2)
    as [[[[es1 pushed] rs2] sc] n3] eqn:Hexplosions;
  cbn [store game rand_calls score status cities batteries rockets
       playerMissiles explosions level].



(** ** The area clear *)

Lemma grid_columns : for_values 8 100 GAME_WIDTH 200 = [100; 300; 500; 700].
Proof. vm_compute. reflexivity. Qed.

Lemma grid_rows : for_values 8 100 GAME_HEIGHT 200 = [100; 300; 500].
Proof. vm_compute. reflexivity. Qed.

(** The two loops have come to their end within the fuel they are given. *)
Lemma grid_loops_finished (k : nat) :
  for_values (8 + k) 100 GAME_WIDTH 200 = for_values 8 100 GAME_WIDTH 200 /\
  for_values (8 + k) 100 GAME_HEIGHT 200 = for_values 8 100 GAME_HEIGHT 200.
Proof.
  split; rewrite ?grid_columns, ?grid_rows;
    repeat (cbn [for_values Nat.add];
          match goal with
          | |- context [?a <? ?b] =>
              let v := eval vm_compute in (a <? b) in
              change (a <? b) with v; cbv iota
          end);
    reflexivity.
Qed.



(** ** Firing *)

Lemma closest_battery_inv (x : float) (bs : list Battery) :
  forall seen best minDist,
    closest_so_far x seen best minDist ->
    let res := closest_battery bs x (Z.of_nat (length seen)) best minDist in
    closest_so_far x (seen ++ bs) (fst res) (snd res).
Proof.
  induction bs as [|b bs IH]; intros seen best minDist [Hmin Hbest]; cbn.
  - rewrite app_nil_r. split; assumption.
  - assert (Hi : (Z.of_nat (length seen) + 1)%Z
                 = Z.of_nat (length (seen ++ [b]))).
    { rewrite length_app. cbn. lia. }
    replace (seen ++ b :: bs) with ((seen ++ [b]) ++ bs)
      by (rewrite <- app_assoc; reflexivity).
    rewrite Hi. fold (reach x b).
    destruct (negb (b_isDestroyed b) && (reach x b <? minDist)) eqn:Htest;
      apply IH; split.
    + apply andb_true_iff in Htest as [_ Hlt].
      intros b' Hin Halive. apply in_app_or in Hin as [Hin|[<-|[]]].
      * apply not_ltb_smaller with minDist; auto.
      * apply ltb_irrefl.
    + right. exists b. apply andb_true_iff in Htest as [Halive Hlt].
      split; [lia|]. split.
      { rewrite Nat2Z.id. apply list_lookup_middle. reflexivity. }
      split; [destruct (b_isDestroyed b); [discriminate|reflexivity]|].
      split; [reflexivity|].
      destruct Hbest as [[_ ->]|(b0 & _ & _ & _ & -> & Hfinite)].
      * exact Hlt.
      * exact (ltb_trans _ _ _ Hlt Hfinite).
    + intros b' Hin Halive. apply in_app_or in Hin as [Hin|[<-|[]]]; auto.
      rewrite Halive in Htest. exact Htest.
    + destruct Hbest as [Hnone|(b0 & H0 & Hlook & Halive & Hd & Hfinite)];
        [now left|].
      right. exists b0. repeat split; auto.
      apply lookup_app_l_Some. exact Hlook.
Qed.



Lemma spread_shot_targets (rnd : nat -> float) (offsets : list float)
    (battery : Battery) (x y : float) (origin : Z) (n : nat) :
  let shots := fst (spread_shot rnd offsets battery x y origin n) in
  m_target <$> shots = (fun o => mkPoint (x + o) y) <$> offsets /\
  Forall (fun m => m_start m = b_pos battery /\ m_pos m = b_pos battery /\
                   m_progress m = 0 /\ m_speed m = PLAYER_MISSILE_SPEED /\
                   m_originBatteryIndex m = origin /\
                   m_isGravityBomb m = false) shots.
Proof.
  revert n. induction offsets as [|o offsets IH]; intros n; cbn.
  - split; constructor.
  - specialize (IH (S n)).
    destruct (spread_shot rnd offsets battery x y origin (S n)) as [ms n'].
    cbn in *. destruct IH as [IHt IHf]. split.
    + rewrite IHt. reflexivity.
    + constructor; [repeat split|exact IHf].
Qed.



(** ** Step 2: rockets and impacts *)

Lemma later_refl {A} `{Target A} (o : A) : later o o.
Proof. split; auto. Qed.

Lemma later_trans {A} `{Target A} (o1 o2 o3 : A) :
  later o1 o2 -> later o2 o3 -> later o1 o3.
Proof. intros [Hp1 Hd1] [Hp2 Hd2]. split; [congruence|auto]. Qed.

Lemma near_later {A} `{Target A} (tx : float) (o o' : A) :
  later o o' -> near tx o' = near tx o.
Proof. intros [Hp _]. unfold near. rewrite Hp. reflexivity. Qed.

Lemma hit_later {A} `{Target A} (tx : float) (objs : list A) (l0 l : loc)
    (o : A) :
  objs !! l = Some o -> exists o', hit tx objs l0 !! l = Some o' /\ later o o'.
Proof.
  intros Hl. unfold hit.
  destruct (objs !! l0) as [o0|] eqn:Hl0;
    [|exists o; split; [assumption|apply later_refl]].
  destruct (negb (tg_isDestroyed o0) && _);
    [|exists o; split; [assumption|apply later_refl]].
  rewrite list_lookup_alter. destruct (decide (l0 = l)) as [Heq|_].
  - subst l0. rewrite Hl. exists (tg_destroy o). split; [reflexivity|].
    split; [apply tg_destroy_pos|intros _; apply tg_destroy_flag].
  - exists o. split; [assumption|apply later_refl].
Qed.

Lemma hit_destroys {A} `{Target A} (tx : float) (objs : list A) (l : loc)
    (o : A) :
  objs !! l = Some o -> near tx o = true ->
  exists o', hit tx objs l !! l = Some o' /\ later o o' /\
             tg_isDestroyed o' = true.
Proof.
  intros Hl Hnear. unfold hit. rewrite Hl. fold (near tx o). rewrite Hnear.
  destruct (tg_isDestroyed o) eqn:Hd; cbn.
  - exists o. repeat split; auto.
  - rewrite list_lookup_alter. destruct (decide (l = l)); [|congruence].
    rewrite Hl. exists (tg_destroy o). split; [reflexivity|]. split.
    + split; [apply tg_destroy_pos|intros _; apply tg_destroy_flag].
    + apply tg_destroy_flag.
Qed.

Lemma foldl_hit_later {A} `{Target A} (tx : float) (ls : list loc) :
  forall (objs : list A) (l : loc) (o : A),
    objs !! l = Some o ->
    exists o', foldl (hit tx) objs ls !! l = Some o' /\ later o o'.
Proof.
  induction ls as [|l0 ls IH]; intros objs l o Hl; cbn.
  - exists o. split; [assumption|apply later_refl].
  - destruct (hit_later tx objs l0 l o Hl) as (o1 & Hl1 & H01).
    destruct (IH _ _ _ Hl1) as (o2 & Hl2 & H12).
    exists o2. split; [assumption|]. eapply later_trans; eassumption.
Qed.

Lemma foldl_hit_destroys {A} `{Target A} (tx : float) (ls : list loc) :
  forall (objs : list A) (l : loc) (o : A),
    In l ls -> objs !! l = Some o -> near tx o = true ->
    exists o', foldl (hit tx) objs ls !! l = Some o' /\ later o o' /\
               tg_isDestroyed o' = true.
Proof.
  induction ls as [|l0 ls IH]; intros objs l o Hin Hl Hnear; cbn.
  - destruct Hin.
  - destruct Hin as [->|Hin].
    + destruct (hit_destroys tx objs l o Hl Hnear) as (o1 & Hl1 & H01 & Hd1).
      destruct (foldl_hit_later tx ls _ _ _ Hl1) as (o2 & Hl2 & H12).
      exists o2. split; [assumption|]. split; [|apply H12, Hd1].
      eapply later_trans; eassumption.
    + destruct (hit_later tx objs l0 l o Hl) as (o1 & Hl1 & H01).
      destruct (IH _ l o1 Hin Hl1) as (o2 & Hl2 & H12 & Hd2).
      { rewrite (near_later tx o o1 H01). exact Hnear. }
      exists o2. split; [assumption|]. split; [|assumption].
      eapply later_trans; eassumption.
Qed.

Lemma store_later_refl (st : Store) : store_later st st.
Proof.
  split; intros l o Hl; exists o; (split; [assumption|apply later_refl]).
Qed.

Lemma store_later_trans (st1 st2 st3 : Store) :
  store_later st1 st2 -> store_later st2 st3 -> store_later st1 st3.
Proof.
  intros [Hc1 Hb1] [Hc2 Hb2]. split; intros l o Hl.
  - destruct (Hc1 l o Hl) as (o1 & Hl1 & H1).
    destruct (Hc2 l o1 Hl1) as (o2 & Hl2 & H2).
    exists o2. split; [assumption|]. eapply later_trans; eassumption.
  - destruct (Hb1 l o Hl) as (o1 & Hl1 & H1).
    destruct (Hb2 l o1 Hl1) as (o2 & Hl2 & H2).
    exists o2. split; [assumption|]. eapply later_trans; eassumption.
Qed.

Lemma impact_later (target : Point) (cs bs : list loc) (st : Store) :
  store_later st (impact target cs bs st).
Proof. split; intros l o Hl; cbn; apply foldl_hit_later; exact Hl. Qed.

(** Where a rocket lands every city and every battery of the game that is
    within the tolerance is destroyed, and stays so. *)
Lemma update_rockets_store (rnd : nat -> float) (cs bs : list loc)
    (rs : list Rocket) :
  forall (st : Store) (n : nat) rs' st' pushed n',
    update_rockets rnd rs cs bs st n = (rs', st', pushed, n') ->
    store_later st st' /\
    forall r, In r rs -> landed (move_rocket r) = true ->
      (forall l o, In l cs -> city_objs st !! l = Some o ->
         near (pt_x (r_target r)) o = true ->
         exists o', city_objs st' !! l = Some o' /\ later o o' /\
                    c_isDestroyed o' = true) /\
      (forall l o, In l bs -> battery_objs st !! l = Some o ->
         near (pt_x (r_target r)) o = true ->
         exists o', battery_objs st' !! l = Some o' /\ later o o' /\
                    b_isDestroyed o' = true).
Proof.
  induction rs as [|r0 rs IH]; intros st n rs' st' pushed' n' Hrun;
    cbn [update_rockets] in Hrun.
  - injection Hrun as <- <- <- <-.
    split; [apply store_later_refl|intros r []].
  - destruct (update_rockets rnd rs cs bs st n) as [[[rs1 st1] pushed] n1]
      eqn:Hrest.
    destruct (IH _ _ _ _ _ _ Hrest) as [Hlater IHr]. clear IH.
    cbv beta iota zeta in Hrun.
    change (1 <=? r_progress (move_rocket r0))
      with (landed (move_rocket r0)) in Hrun.
    change (r_target (move_rocket r0)) with (r_target r0) in Hrun.
    destruct (landed (move_rocket r0)) eqn:Hlanded.
    + injection Hrun as <- <- <- <-.
      pose proof (impact_later (r_target r0) cs bs st1) as Himp.
      split; [eapply store_later_trans; eassumption|].
      intros r [<-|Hin] Hr.
      * split; intros l o Hl Ho Hnear.
        -- destruct (proj1 Hlater l o Ho) as (o1 & Ho1 & H1).
           destruct (foldl_hit_destroys (pt_x (r_target r0)) cs
                       (city_objs st1) l o1 Hl Ho1) as (o2 & Ho2 & H2 & Hd).
           { rewrite (near_later _ o o1 H1). exact Hnear. }
           exists o2. split; [assumption|]. split; [|assumption].
           eapply later_trans; eassumption.
        -- destruct (proj2 Hlater l o Ho) as (o1 & Ho1 & H1).
           destruct (foldl_hit_destroys (pt_x (r_target r0)) bs
                       (battery_objs st1) l o1 Hl Ho1) as (o2 & Ho2 & H2 & Hd).
           { rewrite (near_later _ o o1 H1). exact Hnear. }
           exists o2. split; [assumption|]. split; [|assumption].
           eapply later_trans; eassumption.
      * destruct (IHr r Hin Hr) as [IHc IHb].
        split; intros l o Hl Ho Hnear.
        -- destruct (IHc l o Hl Ho Hnear) as (o1 & Ho1 & H1 & Hd).
           destruct (proj1 Himp l o1 Ho1) as (o2 & Ho2 & H2).
           exists o2. split; [assumption|]. split; [|apply H2, Hd].
           eapply later_trans; eassumption.
        -- destruct (IHb l o Hl Ho Hnear) as (o1 & Ho1 & H1 & Hd).
           destruct (proj2 Himp l o1 Ho1) as (o2 & Ho2 & H2).
           exists o2. split; [assumption|]. split; [|apply H2, Hd].
           eapply later_trans; eassumption.
    + injection Hrun as <- <- <- <-.
      split; [assumption|].
      intros r [<-|Hin] Hr; [congruence|]. apply IHr; assumption.
Qed.

(** The rockets that go on and the explosions of those that have landed. *)
Lemma update_rockets_lists (rnd : nat -> float) (cs bs : list loc)
    (rs : list Rocket) :
  forall (st : Store) (n : nat) rs' st' pushed n',
    update_rockets rnd rs cs bs st n = (rs', st', pushed, n') ->
    let moved := move_rocket <$> rs in
    rs' = List.filter (fun r => negb (landed r)) moved /\
    shape <$> pushed
    = (fun r => (r_target r, 0, EXPLOSION_MAX_RADIUS, true))
        <$> rev (List.filter landed moved).
Proof.
  induction rs as [|r0 rs IH]; intros st n rs' st' pushed' n' Hrun;
    cbn [update_rockets] in Hrun.
  - injection Hrun as <- <- <- <-. split; reflexivity.
  - destruct (update_rockets rnd rs cs bs st n) as [[[rs1 st1] pushed] n1]
      eqn:Hrest.
    destruct (IH _ _ _ _ _ _ Hrest) as [IHr IHp]. clear IH.
    cbv beta iota zeta in Hrun.
    change (1 <=? r_progress (move_rocket r0))
      with (landed (move_rocket r0)) in Hrun.
    cbn [fmap list_fmap List.filter].
    destruct (landed (move_rocket r0)) eqn:Hlanded;
      injection Hrun as <- <- <- <-; cbn [negb rev].
    + split; [assumption|].
      rewrite !fmap_app, IHp. reflexivity.
    + split; [congruence|assumption].
Qed.

(** ** Step 3: missiles *)

Lemma update_missiles_lists (rnd : nat -> float) (ms : list PlayerMissile) :
  forall (n : nat) ms' pushed n',
    update_missiles rnd ms n = (ms', pushed, n') ->
    let moved := move_missile <$> ms in
    ms' = List.filter (fun m => negb (arrived m)) moved /\
    shape <$> pushed
    = (fun m => (m_target m, 0,
                 if m_isGravityBomb m then EXPLOSION_MAX_RADIUS * 2
                 else EXPLOSION_MAX_RADIUS, true))
        <$> rev (List.filter arrived moved).
Proof.
  induction ms as [|m0 ms IH]; intros n ms' pushed' n' Hrun;
    cbn [update_missiles] in Hrun.
  - injection Hrun as <- <- <-. split; reflexivity.
  - destruct (update_missiles rnd ms n) as [[ms1 pushed] n1] eqn:Hrest.
    destruct (IH _ _ _ _ Hrest) as [IHm IHp]. clear IH.
    cbv beta iota zeta in Hrun.
    change (1 <=? m_progress (move_missile m0))
      with (arrived (move_missile m0)) in Hrun.
    cbn [fmap list_fmap List.filter].
    destruct (arrived (move_missile m0)) eqn:Harrived;
      injection Hrun as <- <- <-; cbn [negb rev].
    + split; [assumption|].
      rewrite !fmap_app, IHp. reflexivity.
    + split; [congruence|assumption].
Qed.

(** ** Step 4: explosions *)

Lemma attract_same_flight (e : Explosion) (isGravity : bool) (r : Rocket) :
  same_flight r (attract e isGravity r).
Proof.
  unfold attract.
  destruct (isGravity && _); repeat split; reflexivity.
Qed.

(** One explosion against the rockets: those within its radius, as the
    distance is before the pull, are taken out, each for one credit and one
    secondary explosion where the pull has left it; the others go on,
    pulled. *)
Lemma hit_rockets_lists (rnd : nat -> float) (e : Explosion)
    (isGravity : bool) (rs : list Rocket) :
  forall (sc : float) (n : nat) rs' sc' pushed n',
    hit_rockets rnd e isGravity rs sc n = (rs', sc', pushed, n') ->
    let killed := List.filter (inside e) rs in
    rs' = attract e isGravity
            <$> List.filter (fun r => negb (inside e r)) rs /\
    sc' = Nat.iter (length killed) (fun s => s + SCORE_PER_ROCKET) sc /\
    shape <$> pushed
    = (fun r => (r_pos (attract e isGravity r), 0,
                 EXPLOSION_MAX_RADIUS * 0.8, true)) <$> rev killed.
Proof.
  induction rs as [|r0 rs IH]; intros sc n rs' sc' pushed' n' Hrun;
    cbn [hit_rockets] in Hrun.
  - injection Hrun as <- <- <- <-. repeat split; reflexivity.
  - destruct (hit_rockets rnd e isGravity rs sc n)
      as [[[rs1 sc1] pushed] n1] eqn:Hrest.
    destruct (IH _ _ _ _ _ _ Hrest) as (IHr & IHs & IHp). clear IH.
    cbv beta iota zeta in Hrun.
    change (distance r0 e <? e_radius e) with (inside e r0) in Hrun.
    cbn [List.filter].
    destruct (inside e r0) eqn:Hinside;
      injection Hrun as <- <- <- <-; cbn [negb rev length]; cbv zeta.
    + rewrite Nat.iter_succ. repeat split; [assumption|congruence|].
      rewrite !fmap_app, IHp. reflexivity.
    + repeat split; [|assumption|assumption].
      cbn [fmap list_fmap]. congruence.
Qed.

Lemma hit_rockets_count (rnd : nat -> float) (e : Explosion)
    (isGravity : bool) (rs : list Rocket) (sc : float) (n : nat)
    rs' sc' pushed n' :
  hit_rockets rnd e isGravity rs sc n = (rs', sc', pushed, n') ->
  sc' = Nat.iter (length pushed) (fun s => s + SCORE_PER_ROCKET) sc /\
  length rs = (length rs' + length pushed)%nat /\
  Forall (fun x => e_radius x = 0 /\
                   e_maxRadius x = EXPLOSION_MAX_RADIUS * 0.8 /\
                   e_isExpanding x = true) pushed /\
  Forall (fun r' => exists r, In r rs /\ same_flight r r') rs'.
Proof.
  revert sc n rs' sc' pushed n'.
  induction rs as [|r0 rs IH]; intros sc n rs' sc' pushed' n' Hrun;
    cbn [hit_rockets] in Hrun.
  - injection Hrun as <- <- <- <-. repeat split; constructor.
  - destruct (hit_rockets rnd e isGravity rs sc n)
      as [[[rs1 sc1] pushed] n1] eqn:Hrest.
    destruct (IH _ _ _ _ _ _ Hrest) as (IHs & IHl & IHp & IHf). clear IH.
    assert (Hweak : Forall (fun r' => exists r, In r (r0 :: rs) /\
                                             same_flight r r') rs1).
    { eapply Forall_impl; [exact IHf|].
      intros r' (r & Hin & Hsame). exists r. split; [now right|assumption]. }
    cbv beta iota zeta in Hrun.
    destruct (distance r0 e <? e_radius e);
      injection Hrun as <- <- <- <-.
    + rewrite length_app, Nat.add_comm. cbn [length Nat.add].
      rewrite Nat.iter_succ.
      repeat split; [congruence|cbn; lia| |assumption].
      apply Forall_app. split; [assumption|]. repeat constructor.
    + repeat split; [assumption|cbn; lia|assumption|].
      constructor; [|assumption].
      exists r0. split; [now left|apply attract_same_flight].
Qed.

Lemma same_flight_trans (r1 r2 r3 : Rocket) :
  same_flight r1 r2 -> same_flight r2 r3 -> same_flight r1 r3.
Proof. unfold same_flight. intuition congruence. Qed.

(** The whole of step 4: every explosion that was there is grown or shrunk
    once, or dropped; every rocket taken out is credited once and leaves
    one secondary explosion; the other rockets go on. *)
Lemma update_explosions_lists (rnd : nat -> float) (es : list Explosion) :
  forall (rs : list Rocket) (sc : float) (n : nat) es' pushed rs' sc' n',
    update_explosions rnd es rs sc n = (es', pushed, rs', sc', n') ->
    es' = omap evolve es /\
    sc' = Nat.iter (length pushed) (fun s => s + SCORE_PER_ROCKET) sc /\
    length rs = (length rs' + length pushed)%nat /\
    Forall (fun x => e_radius x = 0 /\
                     e_maxRadius x = EXPLOSION_MAX_RADIUS * 0.8 /\
                     e_isExpanding x = true) pushed /\
    Forall (fun r' => exists r, In r rs /\ same_flight r r') rs'.
Proof.
  induction es as [|e0 es IH]; intros rs sc n es' pushed' rs' sc' n' Hrun;
    cbn [update_explosions] in Hrun.
  - injection Hrun as <- <- <- <- <-.
    repeat split; try constructor; try (cbn; lia).
    apply Forall_forall. intros r Hin. exists r.
    split; [apply list_elem_of_In; exact Hin|repeat split].
  - destruct (update_explosions rnd es rs sc n)
      as [[[[es1 pushed] rs1] sc1] n1] eqn:Hrest.
    destruct (IH _ _ _ _ _ _ _ _ Hrest) as (IHe & IHs & IHl & IHp & IHf).
    clear IH. cbv beta iota zeta in Hrun. cbn [omap list_omap].
    destruct (evolve e0) as [e|].
    + destruct (hit_rockets rnd e (EXPLOSION_MAX_RADIUS <? e_maxRadius e0)
                  rs1 sc1 n1) as [[[rs2 sc2] secondary] n2] eqn:Hhit.
      injection Hrun as <- <- <- <- <-.
      destruct (hit_rockets_count _ _ _ _ _ _ _ _ _ _ Hhit)
        as (Hs & Hl & Hp & Hf).
      rewrite length_app.
      repeat split.
      * congruence.
      * rewrite Nat.add_comm, Nat.iter_add. congruence.
      * lia.
      * apply Forall_app. split; assumption.
      * eapply Forall_impl; [exact Hf|].
        intros r2 (r1 & Hin1 & H12).
        destruct (proj1 (Forall_forall _ _) IHf r1) as (r & Hin & H01).
        { apply list_elem_of_In. exact Hin1. }
        exists r. split; [assumption|].
        eapply same_flight_trans; eassumption.
    + injection Hrun as <- <- <- <- <-. repeat split; assumption.
Qed.

(** ** The tick as a whole *)

Lemma In_fmap {A B} (f : A -> B) (l : list A) (y : B) :
  In y (f <$> l) <-> exists x, y = f x /\ In x l.
Proof.
  rewrite <- list_elem_of_In, list_elem_of_fmap.
  split; intros (x & Hx & Hin); exists x; (split; [assumption|]);
    apply list_elem_of_In; assumption.
Qed.

Lemma In_omap {A B} (f : A -> option B) (l : list A) (y : B) :
  In y (omap f l) <-> exists x, In x l /\ f x = Some y.
Proof.
  rewrite <- list_elem_of_In, list_elem_of_omap.
  split; intros (x & Hin & Hx); exists x; (split; [|assumption]);
    apply list_elem_of_In; assumption.
Qed.

Lemma spawn_phase_rockets (rnd : nat -> float) (w : World) :
  exists extra, fst (spawn_phase rnd w) = rockets (game w) ++ extra.
Proof.
  unfold spawn_phase, Math_random.
  destruct (if _ <? _ then _ else _) as [spawned n]. cbn [fst]. eauto.
Qed.

(** The missiles in flight have no part in step 1. *)
Lemma spawn_phase_missiles (rnd : nat -> float) (w : World)
    (ms : list PlayerMissile) :
  spawn_phase rnd (with_missiles w ms) = spawn_phase rnd w.
Proof. reflexivity. Qed.

Lemma evolve_expanding (e : Explosion) :
  e_isExpanding e = true ->
  exists e', evolve e = Some e' /\ e_pos e' = e_pos e /\
             e_maxRadius e' = e_maxRadius e /\
             e_radius e'
             = e_radius e + EXPLOSION_GROWTH_SPEED * e_maxRadius e.
Proof.
  intros Hexp. unfold evolve. rewrite Hexp.
  eexists. split; [reflexivity|]. repeat split.
Qed.

(** An explosion created in step 2 or 3 is in the snapshot of the tick,
    grown once. *)
Lemma fresh_explosion_shown (created : list Explosion) (p : Point)
    (maxRadius : float) :
  In (p, 0, maxRadius, true) (shape <$> created) ->
  exists e, In e (omap evolve created) /\ e_pos e = p /\
            e_maxRadius e = maxRadius /\
            e_radius e = 0 + EXPLOSION_GROWTH_SPEED * maxRadius.
Proof.
  intros Hin. apply In_fmap in Hin as (e0 & Hshape & Hin).
  injection Hshape as Hp Hr Hm Hx.
  destruct (evolve_expanding e0) as (e & He & Hpos & Hmax & Hrad);
    [congruence|].
  exists e. split; [apply In_omap; eauto|].
  repeat split; congruence.
Qed.

(** C6.  In a tick of a game that is being played, for every rocket whose
    progress reaches 1: every city and every battery of the game whose
    abscissa is less than 20 units away from that of the rocket's target
    is destroyed when the tick is over; no rocket that has reached 1 is
    left among the rockets; and the explosions hold one of maximal radius
    [EXPLOSION_MAX_RADIUS] centred on the target of the rocket, grown
    once. *)
Theorem rocket_impact (rnd : nat -> float) (w : World) (r : Rocket) :
  status (game w) = PLAYING ->
  In r (fst (spawn_phase rnd w)) ->
  (1 <=? r_progress r + r_speed r) = true ->
  let w' := update rnd w in
  (forall l c, In l (cities (game w)) -> city_objs (store w) !! l = Some c ->
     (PrimFloat.abs (pt_x (c_pos c) - pt_x (r_target r)) <? 20) = true ->
     exists c', city_objs (store w') !! l = Some c' /\
                c_pos c' = c_pos c /\ c_isDestroyed c' = true) /\
  (forall l b, In l (batteries (game w)) ->
     battery_objs (store w) !! l = Some b ->
     (PrimFloat.abs (pt_x (b_pos b) - pt_x (r_target r)) <? 20) = true ->
     exists b', battery_objs (store w') !! l = Some b' /\
                b_pos b' = b_pos b /\ b_isDestroyed b' = true) /\
  Forall (fun r' => (1 <=? r_progress r') = false) (rockets (game w')) /\
  (exists e, In e (explosions (game w')) /\ e_pos e = r_target r /\
             e_maxRadius e = EXPLOSION_MAX_RADIUS /\
             e_radius e
             = 0 + EXPLOSION_GROWTH_SPEED * EXPLOSION_MAX_RADIUS).
Proof.
  intros Hplaying Hin Hlands. tick_steps rnd w. cbn [fst] in Hin.
  destruct (update_rockets_store _ _ _ _ _ _ _ _ _ _ Hrockets) as [_ Hstore].
  destruct (Hstore r Hin Hlands) as [Hcities Hbatteries].
  destruct (update_rockets_lists _ _ _ _ _ _ _ _ _ _ Hrockets)
    as [Hflying Hhits].
  destruct (update_explosions_lists _ _ _ _ _ _ _ _ _ _ Hexplosions)
    as (Hes & _ & _ & _ & Hsame).
  split; [|split; [|split]].
  - intros l c Hl Hc Hnear.
    destruct (Hcities l c Hl Hc Hnear) as (c' & Hc' & [Hpos _] & Hd). eauto.
  - intros l b Hl Hb Hnear.
    destruct (Hbatteries l b Hl Hb Hnear) as (b' & Hb' & [Hpos _] & Hd). eauto.
  - eapply Forall_impl; [exact Hsame|].
    intros r2 (r1 & Hin1 & (_ & _ & _ & Hprogress & _)).
    rewrite Hflying in Hin1. apply filter_In in Hin1 as [_ Hnot].
    rewrite Hprogress. unfold landed in Hnot.
    destruct (1 <=? r_progress r1); [discriminate|reflexivity].
  - destruct (fresh_explosion_shown (explosions (game w) ++ hits ++ blasts)
                (r_target r) EXPLOSION_MAX_RADIUS) as (e & He & Hrest).
    { rewrite !fmap_app. apply in_or_app. right. apply in_or_app. left.
      rewrite Hhits. apply In_fmap. exists (move_rocket r).
      split; [reflexivity|]. rewrite <- in_rev. apply filter_In.
      split; [|exact Hlands]. apply In_fmap. eauto. }
    exists e. split; [|exact Hrest].
    apply in_or_app. left. rewrite Hes. exact He.
Qed.

Lemma rocket_impact_witness :
  let w := before_impact in
  let r := nth 0 (rockets (game w)) falling_rocket in
  status (game w) = PLAYING /\
  In r (fst (spawn_phase three_rockets w)) /\
  (1 <=? r_progress r + r_speed r) = true /\
  (exists b',
     battery_objs (store (update three_rockets w)) !! 0%nat = Some b' /\
              b_isDestroyed b' = true).
Proof.
  assert (Hin : In (nth 0 (rockets (game before_impact)) falling_rocket)
                   (fst (spawn_phase three_rockets before_impact))).
  { vm_compute. left. reflexivity. }
  split; [vm_compute; reflexivity|]. split; [exact Hin|].
  split; [vm_compute; reflexivity|].
  destruct (rocket_impact three_rockets before_impact
              (nth 0 (rockets (game before_impact)) falling_rocket))
    as (_ & Hb & _);
    [vm_compute; reflexivity|exact Hin|vm_compute; reflexivity|].
  destruct (Hb 0%nat (initial_battery 0 (40, 30))) as (b' & Hb' & _ & Hd).
  - vm_compute. left. reflexivity.
  - vm_compute. reflexivity.
  - vm_compute. reflexivity.
  - exists b'. split; assumption.
Defined.

(** The store that a tick leaves is the one that step 2 leaves. *)
Lemma update_store (rnd : nat -> float) (w : World) :
  status (game w) = PLAYING ->
  store (update rnd w)
  = snd (fst (fst (update_rockets rnd (fst (spawn_phase rnd w))
                     (cities (game w)) (batteries (game w)) (store w)
                     (snd (spawn_phase rnd w))))).
Proof.
  intros Hplaying. tick_steps rnd w. cbn [fst snd]. rewrite Hrockets.
  reflexivity.
Qed.

(** C7.  In a tick of a game that is being played, for every missile whose
    progress reaches 1: no missile that has reached 1 is left among the
    missiles; the explosions hold one centred on the target of the missile,
    grown once, whose maximal radius is twice [EXPLOSION_MAX_RADIUS] if the
    missile is a gravity bomb and [EXPLOSION_MAX_RADIUS] if it is not, two
    different numbers.  The cities and batteries that the tick leaves are
    the same whatever missiles were in flight. *)
Theorem missile_impact (rnd : nat -> float) (w : World) (m : PlayerMissile) :
  status (game w) = PLAYING ->
  In m (playerMissiles (game w)) ->
  (1 <=? m_progress m + m_speed m) = true ->
  let w' := update rnd w in
  let maxRadius := if m_isGravityBomb m then EXPLOSION_MAX_RADIUS * 2
                   else EXPLOSION_MAX_RADIUS in
  Forall (fun m' => (1 <=? m_progress m') = false) (playerMissiles (game w')) /\
  (exists e, In e (explosions (game w')) /\ e_pos e = m_target m /\
             e_maxRadius e = maxRadius /\
             e_radius e = 0 + EXPLOSION_GROWTH_SPEED * maxRadius) /\
  (maxRadius = EXPLOSION_MAX_RADIUS * 2 <-> m_isGravityBomb m = true) /\
  (forall ms, store (update rnd (with_missiles w ms)) = store w').
Proof.
  intros Hplaying Hin Harrives w' maxRadius. subst w'.
  split; [|split; [|split]].
  - tick_steps rnd w.
    destruct (update_missiles_lists _ _ _ _ _ _ Hmissiles) as [Hflying _].
    rewrite Hflying. apply Forall_forall. intros m' Hm'.
    apply list_elem_of_In, filter_In in Hm' as [_ Hnot].
    unfold arrived in Hnot.
    destruct (1 <=? m_progress m'); [discriminate|reflexivity].
  - tick_steps rnd w.
    destruct (update_missiles_lists _ _ _ _ _ _ Hmissiles) as [_ Hblasts].
    destruct (update_explosions_lists _ _ _ _ _ _ _ _ _ _ Hexplosions)
      as (Hes & _).
    destruct (fresh_explosion_shown (explosions (game w) ++ hits ++ blasts)
                (m_target m) maxRadius) as (e & He & Hrest).
    { rewrite !fmap_app. apply in_or_app. right. apply in_or_app. right.
      rewrite Hblasts. apply In_fmap. exists (move_missile m).
      split; [reflexivity|]. rewrite <- in_rev. apply filter_In.
      split; [|exact Harrives]. apply In_fmap. eauto. }
    exists e. split; [|exact Hrest].
    apply in_or_app. left. rewrite Hes. exact He.
  - subst maxRadius. destruct (m_isGravityBomb m); split; auto;
      try discriminate.
  - intros ms.
    rewrite (update_store rnd w Hplaying).
    rewrite (update_store rnd (with_missiles w ms) Hplaying).
    reflexivity.
Qed.

Lemma missile_impact_witness :
  let w := before_blast 100 in
  let m := nth 0 (playerMissiles (game w)) spare_missile in
  status (game w) = PLAYING /\
  In m (playerMissiles (game w)) /\
  (1 <=? m_progress m + m_speed m) = true /\
  Forall (fun m' => (1 <=? m_progress m') = false)
         (playerMissiles (game (update one_rocket w))).
Proof.
  assert (Hin : In (nth 0 (playerMissiles (game (before_blast 100)))
                      spare_missile)
                   (playerMissiles (game (before_blast 100)))).
  { vm_compute. left. reflexivity. }
  split; [vm_compute; reflexivity|]. split; [exact Hin|].
  split; [vm_compute; reflexivity|].
  apply (missile_impact one_rocket (before_blast 100) _
           ltac:(vm_compute; reflexivity) Hin ltac:(vm_compute; reflexivity)).
Defined.

(** ** Kills and the gravity pull *)



(** C3, as the code has it.  For a gravity explosion and a rocket within
    twice its radius, the pull moves the rocket first; the kill test of
    that explosion then compares the radius with the distance measured
    before the pull.  A rocket that passes the test goes on from where the
    pull has put it, one that fails it leaves its secondary explosion
    there. *)
Theorem pull_then_stale_kill_test (rnd : nat -> float) (e : Explosion)
    (rs : list Rocket) (sc : float) (n : nat) (r : Rocket) :
  (EXPLOSION_MAX_RADIUS <? e_maxRadius e) = true ->
  In r rs ->
  (distance r e <? e_radius e * 2) = true ->
  let '(rs', _, pushed, _) :=
    hit_rockets rnd e (EXPLOSION_MAX_RADIUS <? e_maxRadius e) rs sc n in
  let pulled := pull e r (distance r e) in
  if distance r e <? e_radius e
  then In (r_pos pulled, 0, EXPLOSION_MAX_RADIUS * 0.8, true)
          (shape <$> pushed)
  else In pulled rs'.
Proof.
  intros Hgravity Hin Hrange. rewrite Hgravity.
  destruct (hit_rockets rnd e true rs sc n)
    as [[[rs' sc'] pushed] n'] eqn:Hhit.
  destruct (hit_rockets_lists _ _ _ _ _ _ _ _ _ _ Hhit)
    as (Hrs & _ & Hpushed).
  assert (Hpull : attract e true r = pull e r (distance r e)).
  { unfold attract. rewrite Hrange. reflexivity. }
  cbv zeta. destruct (distance r e <? e_radius e) eqn:Htest.
  - rewrite Hpushed. apply In_fmap. exists r.
    split; [rewrite Hpull; reflexivity|].
    rewrite <- in_rev. apply filter_In. split; assumption.
  - rewrite Hrs. apply In_fmap. exists r. split; [now rewrite Hpull|].
    apply filter_In. split; [assumption|].
    unfold inside. rewrite Htest. reflexivity.
Qed.

Lemma pull_then_stale_kill_test_witness :
  (EXPLOSION_MAX_RADIUS <? e_maxRadius gravity_blast) = true /\
  In falling_rocket [falling_rocket] /\
  (distance falling_rocket gravity_blast <? e_radius gravity_blast * 2)
  = true /\
  In (pull gravity_blast falling_rocket (distance falling_rocket gravity_blast))
     (fst (fst (fst (hit_rockets quiet gravity_blast true [falling_rocket]
                                 0 0)))).
Proof.
  split; [reflexivity|]. split; [now left|]. split; [reflexivity|].
  exact (pull_then_stale_kill_test quiet gravity_blast [falling_rocket] 0 0
           falling_rocket eq_refl (or_introl eq_refl) eq_refl).
Defined.

(** C3, as the design document has it, fails: this rocket is outside the
    radius before the pull and inside it after the pull, and it is not
    taken out. *)
Lemma kill_test_is_not_after_pull :
  (EXPLOSION_MAX_RADIUS <? e_maxRadius gravity_blast) = true /\
  (distance falling_rocket gravity_blast <? e_radius gravity_blast * 2)
  = true /\
  kill_test_after_pull gravity_blast true falling_rocket = true /\
  hit_rockets quiet gravity_blast true [falling_rocket] 0 0
  = ([attract gravity_blast true falling_rocket], 0, [], 0%nat) /\
  r_pos (attract gravity_blast true falling_rocket) <> r_pos falling_rocket.
Proof.
  repeat split; try (vm_compute; reflexivity).
  vm_compute. intros Heq.
  apply (f_equal (fun p => pt_y p =? 290)) in Heq. vm_compute in Heq.
  discriminate.
Qed.

(** C1 fails on the code.  A rocket at the very centre of a gravity
    explosion is pulled, by 0/0: its position becomes NaN, it is taken out,
    and the secondary explosion is created at that position.  The state is
    reached in play: a gravity bomb fired at the point where the rocket
    will be when the bomb goes off. *)
Theorem zero_distance_pull_not_skipped :
  distance centred_rocket gravity_blast = 0 /\
  is_nan (pt_x (r_pos (attract gravity_blast true centred_rocket))) = true /\
  (fun x => is_nan (pt_x (e_pos x)))
    <$> snd (fst (hit_rockets quiet gravity_blast true [centred_rocket] 0 0))
  = [true] /\
  (fun x => (is_nan (pt_x (e_pos x)), is_nan (pt_y (e_pos x))))
    <$> explosions (game (update one_rocket (before_blast meeting_point)))
  = [(false, false); (true, true)].
Proof. repeat split; vm_compute; reflexivity. Qed.

(** ** The radius of an explosion *)

Lemma trajectory_none_stays (mr : float) (k : nat) :
  trajectory mr k = None -> forall j, (k <= j)%nat -> trajectory mr j = None.
Proof.
  intros Hk j Hle. induction Hle as [|j _ IH]; [assumption|].
  cbn [trajectory]. rewrite IH. reflexivity.
Qed.

Lemma trajectory_bounds (mr : float) (k : nat) :
  In mr radii -> trajectory_ok mr k = true.
Proof.
  intros Hmr.
  assert (Hend : trajectory mr 100 = None).
  { destruct Hmr as [<-|[<-|[<-|[<-|[]]]]]; vm_compute; reflexivity. }
  assert (Hall : forallb (trajectory_ok mr) (seq 0 100) = true).
  { destruct Hmr as [<-|[<-|[<-|[<-|[]]]]]; vm_compute; reflexivity. }
  destruct (Nat.lt_ge_cases k 100) as [Hlt|Hge].
  - apply (proj1 (forallb_forall _ _) Hall). apply in_seq. lia.
  - unfold trajectory_ok.
    rewrite (trajectory_none_stays mr 100 Hend k Hge). reflexivity.
Qed.

Lemma evolve_grow (e : Explosion) :
  evolve e
  = match grow (e_maxRadius e) (e_radius e) (e_isExpanding e) with
    | Some (radius, expanding) => Some (with_radius e radius expanding)
    | None => None
    end.
Proof.
  unfold evolve, grow. destruct (e_isExpanding e); [reflexivity|].
  destruct (_ <=? 0); reflexivity.
Qed.

Lemma evolve_on_trajectory (e e' : Explosion) :
  on_trajectory e -> evolve e = Some e' -> on_trajectory e'.
Proof.
  intros [Hmr [k Hk]] He. rewrite evolve_grow in He.
  destruct (grow (e_maxRadius e) (e_radius e) (e_isExpanding e))
    as [[radius expanding]|] eqn:Hgrow; [|discriminate].
  injection He as <-. split; [exact Hmr|].
  exists (S k). cbn [trajectory with_radius e_maxRadius e_radius
                     e_isExpanding].
  rewrite Hk. exact Hgrow.
Qed.

Lemma fresh_on_trajectory (e : Explosion) : fresh e -> on_trajectory e.
Proof.
  intros (Hr & Hx & Hmr). split; [exact Hmr|].
  exists 0%nat. cbn. congruence.
Qed.

Lemma on_trajectory_bounds (e : Explosion) :
  on_trajectory e ->
  (0 <=? e_radius e) = true /\
  (e_radius e
   <? e_maxRadius e + EXPLOSION_GROWTH_SPEED * e_maxRadius e) = true /\
  (e_isExpanding e = true -> (e_radius e <? e_maxRadius e) = true) /\
  (e_isExpanding e = false -> (0 <? e_radius e) = true).
Proof.
  intros [Hmr [k Hk]].
  pose proof (trajectory_bounds (e_maxRadius e) k Hmr) as Hok.
  unfold trajectory_ok in Hok. rewrite Hk in Hok. unfold radius_ok in Hok.
  apply andb_true_iff in Hok as [Hok Hphase].
  apply andb_true_iff in Hok as [Hlow Hhigh].
  repeat split; try assumption; intros Hx; rewrite Hx in Hphase; assumption.
Qed.

(** A list of explosions that have the shapes of new ones. *)
Lemma shape_fresh {X} (f : X -> Point * float * float * bool)
    (es : list Explosion) :
  (forall x, snd (fst (fst (f x))) = 0 /\ snd (f x) = true /\
             In (snd (fst (f x))) radii) ->
  forall l, shape <$> es = f <$> l -> Forall fresh es.
Proof.
  intros Hf. induction es as [|e es IH]; intros l Heq; [constructor|].
  destruct l as [|x l]; [discriminate|].
  cbn [fmap list_fmap] in Heq. injection Heq as Hshape Hrest.
  constructor; [|exact (IH l Hrest)].
  destruct (Hf x) as (Hr & Hx & Hmr). rewrite <- Hshape in Hr, Hx, Hmr.
  repeat split; assumption.
Qed.

Lemma omap_evolve_on_trajectory (es : list Explosion) :
  Forall on_trajectory es -> Forall on_trajectory (omap evolve es).
Proof.
  intros Hes. apply Forall_forall. intros e' Hin.
  apply list_elem_of_omap in Hin as (e & Hin & He).
  apply (evolve_on_trajectory e e'); [|exact He].
  exact (proj1 (Forall_forall _ _) Hes e Hin).
Qed.

(** What a tick does to the explosions. *)
Lemma update_explosions_of (rnd : nat -> float) (w : World) :
  status (game w) = PLAYING ->
  exists created pushed,
    explosions (game (update rnd w))
    = omap evolve (explosions (game w) ++ created) ++ pushed /\
    Forall fresh (created ++ pushed).
Proof.
  intros Hplaying. tick_steps rnd w.
  destruct (update_rockets_lists _ _ _ _ _ _ _ _ _ _ Hrockets) as [_ Hhits].
  destruct (update_missiles_lists _ _ _ _ _ _ Hmissiles) as [_ Hblasts].
  destruct (update_explosions_lists _ _ _ _ _ _ _ _ _ _ Hexplosions)
    as (Hes & _ & _ & Hpushed & _).
  exists (hits ++ blasts), pushed. split; [congruence|].
  rewrite !Forall_app. repeat split.
  - apply (shape_fresh _ hits) in Hhits; [exact Hhits|].
    intros r. cbn. repeat split. now left.
  - apply (shape_fresh _ blasts) in Hblasts; [exact Hblasts|].
    intros m. cbn. repeat split.
    destruct (m_isGravityBomb m); [right|]; now left.
  - eapply Forall_impl; [exact Hpushed|].
    intros e (Hr & Hmr & Hx). repeat split; [assumption..|].
    rewrite Hmr. right. right. now left.
Qed.

Lemma triggerMegaExplosion_explosions (rnd : nat -> float) (w : World) :
  exists grid,
    explosions (game (triggerMegaExplosion rnd w))
    = explosions (game w) ++ grid /\ Forall fresh grid.
Proof.
  unfold triggerMegaExplosion. rewrite grid_columns.
  cbn [mega_grid]. rewrite grid_rows. cbn [mega_column Math_random app].
  destruct (decide (status (game w) <> PLAYING)) as [Hn|Hp].
  - exists []. rewrite app_nil_r. split; [reflexivity|constructor].
  - eexists. split; [reflexivity|].
    repeat (apply Forall_cons; split;
            [split; [reflexivity|split; [reflexivity|do 3 right; now left]]|]).
    constructor.
Qed.

Lemma handleCanvasClick_explosions (rnd : nat -> float) (x y : float)
    (isGravity : bool) (w : World) :
  explosions (game (handleCanvasClick rnd x y isGravity w))
  = explosions (game w).
Proof.
  unfold handleCanvasClick.
  destruct (decide (status (game w) <> PLAYING)); [reflexivity|].
  destruct (decide (_ = (-1)%Z)); [reflexivity|].
  destruct (index_at _ _); [|reflexivity].
  destruct (if negb isGravity then _ else _). reflexivity.
Qed.

Lemma exec_on_trajectory (rnd : nat -> float) (w : World) (c : Command) :
  Forall on_trajectory (explosions (game w)) ->
  Forall on_trajectory (explosions (game (exec rnd w c))).
Proof.
  intros Hw. destruct c as [|x y isGravity| | |]; cbn [exec].
  - constructor.
  - rewrite handleCanvasClick_explosions. exact Hw.
  - destruct (triggerMegaExplosion_explosions rnd w) as (grid & -> & Hgrid).
    apply Forall_app. split; [exact Hw|].
    eapply Forall_impl; [exact Hgrid|]. exact fresh_on_trajectory.
  - constructor.
  - destruct (decide (status (game w) = PLAYING)) as [Hplaying|Hnot].
    + destruct (update_explosions_of rnd w Hplaying)
        as (created & pushed & -> & Hfresh).
      apply Forall_app in Hfresh as [Hcreated Hpushed].
      apply Forall_app. split.
      * apply omap_evolve_on_trajectory, Forall_app. split; [exact Hw|].
        eapply Forall_impl; [exact Hcreated|]. exact fresh_on_trajectory.
      * eapply Forall_impl; [exact Hpushed|]. exact fresh_on_trajectory.
    + unfold update. destruct (decide _); [exact Hw|contradiction].
Qed.

Lemma run_on_trajectory (rnd : nat -> float) (cmds : list Command) :
  Forall on_trajectory (explosions (game (run rnd cmds))).
Proof.
  unfold run.
  assert (Hgen : forall w, Forall on_trajectory (explosions (game w)) ->
                 Forall on_trajectory
                        (explosions (game (foldl (exec rnd) w cmds)))).
  { induction cmds as [|c cmds IH]; intros w Hw; [exact Hw|].
    cbn [foldl]. apply IH, exec_on_trajectory, Hw. }
  apply Hgen. constructor.
Qed.

(** C4, as the code has it.  In every state that a run of commands
    reaches, the radius of every explosion is at least 0 and below its
    maximal radius plus one step of growth: below the maximal radius while
    the explosion expands, above 0 once it contracts.  A tick grows an
    expanding explosion by [EXPLOSION_GROWTH_SPEED] times its maximal
    radius and makes it contract once the radius has reached the maximal
    radius; it shrinks a contracting one, and drops it from the list when
    the radius has come down to 0 or below. *)
Theorem explosion_radius (rnd : nat -> float) (cmds : list Command) :
  let w := run rnd cmds in
  Forall (fun e =>
            (0 <=? e_radius e) = true /\
            (e_radius e
             <? e_maxRadius e + EXPLOSION_GROWTH_SPEED * e_maxRadius e)
            = true /\
            (e_isExpanding e = true ->
             (e_radius e <? e_maxRadius e) = true) /\
            (e_isExpanding e = false -> (0 <? e_radius e) = true))
         (explosions (game w)) /\
  (status (game w) = PLAYING ->
   exists created pushed,
     explosions (game (update rnd w))
     = omap evolve (explosions (game w) ++ created) ++ pushed /\
     Forall (fun e => e_radius e = 0 /\ e_isExpanding e = true)
            (created ++ pushed)) /\
  (forall e,
     let grown := e_radius e + EXPLOSION_GROWTH_SPEED * e_maxRadius e in
     let shrunk := e_radius e - EXPLOSION_DECAY_SPEED * e_maxRadius e in
     (e_isExpanding e = true ->
      exists e', evolve e = Some e' /\ e_radius e' = grown /\
                 e_maxRadius e' = e_maxRadius e /\
                 (e_isExpanding e' = false <->
                  (e_maxRadius e <=? grown) = true)) /\
     (e_isExpanding e = false ->
      (evolve e = None <-> (shrunk <=? 0) = true) /\
      (forall e', evolve e = Some e' ->
                  e_radius e' = shrunk /\ e_maxRadius e' = e_maxRadius e /\
                  e_isExpanding e' = false))).
Proof.
  cbv zeta. split; [|split].
  - eapply Forall_impl; [apply run_on_trajectory|].
    exact on_trajectory_bounds.
  - intros Hplaying.
    destruct (update_explosions_of rnd (run rnd cmds) Hplaying)
      as (created & pushed & Heq & Hfresh).
    exists created, pushed. split; [exact Heq|].
    eapply Forall_impl; [exact Hfresh|].
    intros e (Hr & Hx & _). split; assumption.
  - intros e. unfold evolve. split; intros Hx; rewrite Hx.
    + eexists. split; [reflexivity|].
      cbn [with_radius e_radius e_maxRadius e_isExpanding].
      split; [reflexivity|]. split; [reflexivity|].
      destruct (_ <=? _); split; intros; congruence.
    + destruct (_ <=? 0); split.
      * split; reflexivity.
      * intros e' He. discriminate.
      * split; discriminate.
      * intros e' He. injection He as <-. repeat split.
Qed.

Lemma explosion_radius_witness :
  let w := run quiet [Start; AreaClear] in
  status (game w) = PLAYING /\
  exists created pushed,
    explosions (game (update quiet w))
    = omap evolve (explosions (game w) ++ created) ++ pushed /\
    Forall (fun e => e_radius e = 0 /\ e_isExpanding e = true)
           (created ++ pushed).
Proof.
  split; [reflexivity|].
  apply (proj1 (proj2 (explosion_radius quiet [Start; AreaClear]))).
  reflexivity.
Defined.

(** C4, as the design document has it, fails: 17 ticks after an area clear
    every one of its twelve explosions has a radius of 306, above its
    maximal radius of 300. *)
Lemma radius_exceeds_maxRadius :
  (fun e => (e_radius e, e_maxRadius e, e_radius e <=? e_maxRadius e))
    <$> explosions (game after_area_clear)
  = repeat (306, 300, false) 12.
Proof. vm_compute. reflexivity. Qed.

(** ** Starting a game *)

(** [startGame] takes the level, the score and the three lists from
    [INITIAL_STATE], and leaves the store alone. *)
Lemma startGame_fields (w : World) :
  let g := game (startGame w) in
  status g = PLAYING /\ level g = 50 /\ level g * WIN_SCORE = 50000 /\
  score g = 0 /\ rockets g = [] /\ playerMissiles g = [] /\
  explosions g = [] /\ store (startGame w) = store w.
Proof. repeat split. Qed.

(** On the first start every city and every battery stands. *)
Lemma first_start_all_standing :
  let w := startGame initial_world in
  (c_isDestroyed <$> deref_cities (store w) (cities (game w)))
  = repeat false 6 /\
  (b_isDestroyed <$> deref_batteries (store w) (batteries (game w)))
  = repeat false 3.
Proof. split; vm_compute; reflexivity. Qed.

(** C10 fails on the code.  The tick has written [isDestroyed] into the
    very objects that [INITIAL_STATE] holds.  After a game lost on its
    first level, [startGame] gives level 50, a threshold of 50000, score 0
    and empty lists, but the three batteries are still destroyed, and the
    next tick ends the new game as LOST. *)
Theorem restart_after_loss :
  let w := lost_game in
  let w' := startGame w in
  status (game w) = LOST /\
  status (game w') = PLAYING /\
  level (game w') = 50 /\
  level (game w') * WIN_SCORE = 50000 /\
  score (game w') = 0 /\
  rockets (game w') = [] /\ playerMissiles (game w') = [] /\
  explosions (game w') = [] /\
  (b_isDestroyed <$> deref_batteries (store w') (batteries (game w')))
  = [true; true; true] /\
  status (game (update three_rockets w')) = LOST.
Proof. repeat split; vm_compute; reflexivity. Qed.

(** * Further properties *)

(** ** What the store keeps *)

Lemma kept_refl {A B} (f : A -> B) (objs : list A) : kept f objs objs.
Proof. intros l o Hl. exists o. split; [assumption|reflexivity]. Qed.

Lemma kept_trans {A B} (f : A -> B) (o1 o2 o3 : list A) :
  kept f o1 o2 -> kept f o2 o3 -> kept f o1 o3.
Proof.
  intros H12 H23 l o Hl. destruct (H12 l o Hl) as (o' & Hl' & Hf').
  destruct (H23 l o' Hl') as (o'' & Hl'' & Hf'').
  exists o''. split; [assumption|congruence].
Qed.

Lemma kept_app {A B} (f : A -> B) (objs new : list A) :
  kept f objs (objs ++ new).
Proof.
  intros l o Hl. exists o. split; [|reflexivity].
  apply lookup_app_l_Some. exact Hl.
Qed.

Lemma kept_hit {A B} `{Target A} (f : A -> B) (tx : float) (objs : list A)
    (l0 : nat) :
  (forall a, f (tg_destroy a) = f a) -> kept f objs (hit tx objs l0).
Proof.
  intros Hf l o Hl. unfold hit.
  destruct (objs !! l0) as [o0|] eqn:Hl0; [|exists o; auto].
  destruct (negb (tg_isDestroyed o0) && _); [|exists o; auto].
  rewrite list_lookup_alter. destruct (decide (l0 = l)) as [Heq|_].
  - subst l0. rewrite Hl. exists (tg_destroy o). split; [reflexivity|apply Hf].
  - exists o. auto.
Qed.

Lemma kept_foldl_hit {A B} `{Target A} (f : A -> B) (tx : float)
    (ls : list nat) :
  (forall a, f (tg_destroy a) = f a) ->
  forall objs : list A, kept f objs (foldl (hit tx) objs ls).
Proof.
  intros Hf. induction ls as [|l0 ls IH]; intros objs; cbn.
  - apply kept_refl.
  - eapply kept_trans; [apply (kept_hit f tx objs l0 Hf)|apply IH].
Qed.

Lemma update_rockets_kept (rnd : nat -> float) (cs bs : list nat)
    (rs : list Rocket) :
  forall (st : Store) (n : nat) rs' st' pushed n',
    update_rockets rnd rs cs bs st n = (rs', st', pushed, n') ->
    kept city_build (city_objs st) (city_objs st') /\
    kept battery_build (battery_objs st) (battery_objs st').
Proof.
  induction rs as [|r0 rs IH]; intros st n rs' st' pushed' n' Hrun;
    cbn [update_rockets] in Hrun.
  - injection Hrun as <- <- <- <-. split; apply kept_refl.
  - destruct (update_rockets rnd rs cs bs st n) as [[[rs1 st1] pushed] n1]
      eqn:Hrest.
    destruct (IH _ _ _ _ _ _ Hrest) as [Hc Hb]. clear IH.
    cbv beta iota zeta in Hrun.
    destruct (1 <=? r_progress (move_rocket r0));
      injection Hrun as <- <- <- <-; [|split; assumption].
    split; (eapply kept_trans; [eassumption|]); cbn [impact city_objs
      battery_objs]; apply kept_foldl_hit; intros a; reflexivity.
Qed.

Lemma handleCanvasClick_store (rnd : nat -> float) (x y : float)
    (isGravity : bool) (w : World) :
  store (handleCanvasClick rnd x y isGravity w) = store w /\
  cities (game (handleCanvasClick rnd x y isGravity w)) = cities (game w) /\
  batteries (game (handleCanvasClick rnd x y isGravity w))
  = batteries (game w).
Proof.
  unfold handleCanvasClick.
  destruct (decide (status (game w) <> PLAYING)); [auto|].
  destruct (decide (_ = (-1)%Z)); [auto|].
  destruct (index_at _ _); [|auto].
  destruct (if negb isGravity then _ else _). auto.
Qed.

Lemma triggerMegaExplosion_store (rnd : nat -> float) (w : World) :
  store (triggerMegaExplosion rnd w) = store w /\
  cities (game (triggerMegaExplosion rnd w)) = cities (game w) /\
  batteries (game (triggerMegaExplosion rnd w)) = batteries (game w).
Proof.
  unfold triggerMegaExplosion.
  destruct (decide (status (game w) <> PLAYING)); [auto|].
  destruct (mega_grid _ _ _). auto.
Qed.

(** A tick keeps the two lists of locations and the level. *)
Lemma update_fields (rnd : nat -> float) (w : World) :
  cities (game (update rnd w)) = cities (game w) /\
  batteries (game (update rnd w)) = batteries (game w) /\
  level (game (update rnd w)) = level (game w).
Proof.
  destruct (decide (status (game w) = PLAYING)) as [Hplaying|Hnot].
  - tick_steps rnd w. auto.
  - unfold update. destruct (decide _); [auto|contradiction].
Qed.

Lemma update_kept (rnd : nat -> float) (w : World) :
  kept city_build (city_objs (store w)) (city_objs (store (update rnd w))) /\
  kept battery_build (battery_objs (store w))
       (battery_objs (store (update rnd w))).
Proof.
  destruct (decide (status (game w) = PLAYING)) as [Hplaying|Hnot].
  - tick_steps rnd w. exact (update_rockets_kept _ _ _ _ _ _ _ _ _ _ Hrockets).
  - unfold update. destruct (decide _); [|contradiction].
    split; apply kept_refl.
Qed.

Lemma exec_kept (rnd : nat -> float) (w : World) (c : Command) :
  kept city_build (city_objs (store w)) (city_objs (store (exec rnd w c))) /\
  kept battery_build (battery_objs (store w))
       (battery_objs (store (exec rnd w c))).
Proof.
  destruct c as [|x y isGravity| | |]; cbn [exec].
  - split; apply kept_refl.
  - rewrite (proj1 (handleCanvasClick_store rnd x y isGravity w)).
    split; apply kept_refl.
  - rewrite (proj1 (triggerMegaExplosion_store rnd w)).
    split; apply kept_refl.
  - split; [apply kept_refl|apply kept_app].
  - apply update_kept.
Qed.

Lemma length_omap_le {A B} (g : A -> option B) (l : list A) :
  (length (omap g l) <= length l)%nat.
Proof.
  induction l as [|a l IH]; cbn; [lia|]. destruct (g a); cbn; lia.
Qed.

(** Locations that are all found give the same [f] in a store that has
    kept [f]. *)
Lemma omap_lookup_kept {A B} (f : A -> B) (objs objs' : list A)
    (refs : list nat) :
  kept f objs objs' ->
  length (omap (fun l => objs !! l) refs) = length refs ->
  f <$> omap (fun l => objs' !! l) refs = f <$> omap (fun l => objs !! l) refs.
Proof.
  intros Hkept. induction refs as [|l refs IH]; intros Hlen; [reflexivity|].
  cbn [omap list_omap] in *.
  destruct (objs !! l) as [o|] eqn:Hl.
  - destruct (Hkept l o Hl) as (o' & -> & Hf). cbn in *.
    rewrite Hf, IH; [reflexivity|lia].
  - pose proof (length_omap_le (fun l => objs !! l) refs). cbn in Hlen. lia.
Qed.

(** The objects just appended, read back through their locations. *)
Lemma omap_lookup_appended {A} (objs new : list A) :
  omap (fun l => (objs ++ new) !! l) (seq (length objs) (length new)) = new.
Proof.
  revert objs. induction new as [|a new IH]; intros objs; [reflexivity|].
  cbn [length seq omap list_omap].
  rewrite lookup_app_r, Nat.sub_diag by lia. cbn.
  f_equal. specialize (IH (objs ++ [a])).
  rewrite length_app, <- app_assoc in IH. cbn in IH.
  rewrite Nat.add_1_r in IH. exact IH.
Qed.

(** ** The layout of the field *)

Lemma layout_initial : layout initial_world.
Proof. repeat split; vm_compute; reflexivity. Qed.

(** A step that keeps what the objects are built with, and the two lists
    of locations, keeps the layout. *)
Lemma layout_kept (w w' : World) :
  layout w ->
  kept city_build (city_objs (store w)) (city_objs (store w')) ->
  kept battery_build (battery_objs (store w)) (battery_objs (store w')) ->
  cities (game w') = cities (game w) ->
  batteries (game w') = batteries (game w) ->
  layout w'.
Proof.
  intros (Hc & Hlen & Hcb & Hb0 & Hb) Hkc Hkb Hcs Hbs.
  unfold layout, deref_cities, deref_batteries in *.
  rewrite Hcs, Hbs. repeat split; try assumption.
  - rewrite (omap_lookup_kept city_build _ _ _ Hkc); [exact Hcb|].
    apply (f_equal length) in Hcb. rewrite !length_fmap in Hcb.
    rewrite Hcb. reflexivity.
  - rewrite (omap_lookup_kept battery_build _ _ _ Hkb); [exact Hb0|].
    apply (f_equal length) in Hb0. rewrite !length_fmap in Hb0.
    rewrite Hb0. reflexivity.
  - rewrite (omap_lookup_kept battery_build _ _ _ Hkb); [exact Hb|].
    apply (f_equal length) in Hb. rewrite !length_fmap in Hb.
    rewrite Hb, Hlen. reflexivity.
Qed.

(** The batteries of the layout have all their missiles. *)
Lemma layout_full (bs : list Battery) :
  battery_build <$> bs = battery_build <$> battery_objs initial_store ->
  Forall (fun b => b_missiles b = b_maxMissiles b) bs.
Proof.
  intros Hbuild.
  assert (Hall : Forall (fun t : Id * Point * float * float =>
                           snd (fst t) = snd t)
                        (battery_build <$> bs)).
  { rewrite Hbuild. repeat constructor. }
  apply Forall_fmap in Hall. exact Hall.
Qed.

Lemma restore_battery_build (bs : list Battery) :
  Forall (fun b => b_missiles b = b_maxMissiles b) bs ->
  battery_build <$> (restore_battery <$> bs) = battery_build <$> bs.
Proof.
  induction 1 as [|b bs Hb _ IH]; [reflexivity|].
  cbn [fmap list_fmap] in *. rewrite IH. f_equal.
  unfold battery_build. cbn. rewrite Hb. reflexivity.
Qed.

Lemma exec_layout (rnd : nat -> float) (w : World) (c : Command) :
  layout w -> layout (exec rnd w c).
Proof.
  intros Hw. destruct c as [|x y isGravity| | |]; cbn [exec].
  - destruct Hw as (Hc & Hlen & Hcb & Hb0 & Hb).
    repeat split; assumption.
  - destruct (handleCanvasClick_store rnd x y isGravity w) as (Hst & Hcs & Hbs).
    apply (layout_kept w); try assumption; rewrite Hst; apply kept_refl.
  - destruct (triggerMegaExplosion_store rnd w) as (Hst & Hcs & Hbs).
    apply (layout_kept w); try assumption; rewrite Hst; apply kept_refl.
  - pose proof Hw as (Hc & Hlen & Hcb & Hb0 & Hb).
    unfold layout, nextLevel, deref_cities, deref_batteries in *.
    cbn [store game cities batteries city_objs battery_objs].
    repeat split.
    + exact Hc.
    + rewrite length_seq, length_fmap.
      apply (f_equal length) in Hb. rewrite !length_fmap in Hb. exact Hb.
    + exact Hcb.
    + rewrite (omap_lookup_kept battery_build (battery_objs (store w)));
        [exact Hb0|apply kept_app|].
      apply (f_equal length) in Hb0. rewrite !length_fmap in Hb0.
      rewrite Hb0. reflexivity.
    + rewrite omap_lookup_appended, restore_battery_build; [exact Hb|].
      apply layout_full. exact Hb.
  - destruct (update_fields rnd w) as (Hcs & Hbs & _).
    destruct (update_kept rnd w) as [Hkc Hkb].
    apply (layout_kept w); assumption.
Qed.

Lemma foldl_layout (rnd : nat -> float) (cmds : list Command) :
  forall w, layout w -> layout (foldl (exec rnd) w cmds).
Proof.
  induction cmds as [|c cmds IH]; intros w Hw; [exact Hw|].
  cbn [foldl]. apply IH, exec_layout, Hw.
Qed.

(** X1.  Whatever commands have run, the game has its six cities and its
    three batteries, each where [INITIAL_STATE] has put it: no location of
    the game is left without its object, and no command moves, adds or
    removes a target. *)
Theorem field_layout (rnd : nat -> float) (cmds : list Command) :
  let w := run rnd cmds in
  c_pos <$> deref_cities (store w) (cities (game w)) = city_positions /\
  b_pos <$> deref_batteries (store w) (batteries (game w))
  = battery_positions /\
  length (cities (game w)) = 6%nat /\
  length (batteries (game w)) = 3%nat.
Proof.
  destruct (foldl_layout rnd cmds initial_world layout_initial)
    as (Hc & Hlen & Hcb & _ & Hb).
  fold (run rnd cmds) in *. cbv zeta. rewrite Hc in *.
  repeat split.
  - apply (f_equal (fmap snd)) in Hcb.
    rewrite <- !list_fmap_compose in Hcb. exact Hcb.
  - apply (f_equal (fmap (fun t : Id * Point * float * float =>
                            snd (fst (fst t))))) in Hb.
    rewrite <- !list_fmap_compose in Hb. exact Hb.
  - exact Hlen.
Qed.

(** X2.  Firing never uses up a missile: whatever commands have run, every
    battery of the game has as many missiles as it can hold, 30, 60 and 30
    from left to right. *)
Theorem ammunition_never_spent (rnd : nat -> float) (cmds : list Command) :
  let w := run rnd cmds in
  let bs := deref_batteries (store w) (batteries (game w)) in
  Forall (fun b => b_missiles b = b_maxMissiles b) bs /\
  b_missiles <$> bs = [30; 60; 30].
Proof.
  destruct (foldl_layout rnd cmds initial_world layout_initial)
    as (_ & _ & _ & _ & Hb).
  fold (run rnd cmds) in *. cbv zeta. split.
  - apply layout_full. exact Hb.
  - apply (f_equal (fmap (fun t : Id * Point * float * float =>
                            snd (fst t)))) in Hb.
    rewrite <- !list_fmap_compose in Hb. exact Hb.
Qed.

(** ** What is destroyed stays destroyed *)

Lemma update_store_later (rnd : nat -> float) (w : World) :
  store_later (store w) (store (update rnd w)).
Proof.
  destruct (decide (status (game w) = PLAYING)) as [Hplaying|Hnot].
  - tick_steps rnd w.
    exact (proj1 (update_rockets_store _ _ _ _ _ _ _ _ _ _ Hrockets)).
  - unfold update. destruct (decide _); [|contradiction].
    apply store_later_refl.
Qed.

Lemma exec_store_later (rnd : nat -> float) (w : World) (c : Command) :
  store_later (store w) (store (exec rnd w c)).
Proof.
  destruct c as [|x y isGravity| | |]; cbn [exec].
  - apply store_later_refl.
  - rewrite (proj1 (handleCanvasClick_store rnd x y isGravity w)).
    apply store_later_refl.
  - rewrite (proj1 (triggerMegaExplosion_store rnd w)).
    apply store_later_refl.
  - split; intros l o Hl; exists o; (split; [|apply later_refl]).
    + exact Hl.
    + apply lookup_app_l_Some. exact Hl.
  - apply update_store_later.
Qed.

Lemma foldl_store_later (rnd : nat -> float) (cmds : list Command) :
  forall w, store_later (store w) (store (foldl (exec rnd) w cmds)).
Proof.
  induction cmds as [|c cmds IH]; intros w; [apply store_later_refl|].
  cbn [foldl]. eapply store_later_trans; [apply exec_store_later|apply IH].
Qed.

Lemma omap_lookup_later {A} `{Target A} (objs objs' : list A)
    (refs : list nat) :
  (forall l o, objs !! l = Some o ->
     exists o', objs' !! l = Some o' /\ later o o') ->
  length (omap (fun l => objs !! l) refs) = length refs ->
  Forall2 later (omap (fun l => objs !! l) refs)
                (omap (fun l => objs' !! l) refs).
Proof.
  intros Hlater. induction refs as [|l refs IH]; intros Hlen; [constructor|].
  cbn [omap list_omap] in *.
  destruct (objs !! l) as [o|] eqn:Hl.
  - destruct (Hlater l o Hl) as (o' & -> & Ho). cbn in *.
    constructor; [exact Ho|]. apply IH. lia.
  - pose proof (length_omap_le (fun l => objs !! l) refs). cbn in Hlen. lia.
Qed.

(** X3.  No command ever clears an [isDestroyed] flag or moves an object:
    a city or battery object that is destroyed is still destroyed, at the
    same place, after any further commands.  For the cities of the game
    this holds across new levels and new games too: the game always shows
    the same six city objects, so a city once destroyed is never
    rebuilt. *)
Theorem destroyed_stays_destroyed (rnd : nat -> float)
    (cmds further : list Command) :
  let w := run rnd cmds in
  let w' := foldl (exec rnd) w further in
  (forall l c, city_objs (store w) !! l = Some c ->
     exists c', city_objs (store w') !! l = Some c' /\
                c_pos c' = c_pos c /\
                (c_isDestroyed c = true -> c_isDestroyed c' = true)) /\
  (forall l b, battery_objs (store w) !! l = Some b ->
     exists b', battery_objs (store w') !! l = Some b' /\
                b_pos b' = b_pos b /\
                (b_isDestroyed b = true -> b_isDestroyed b' = true)) /\
  cities (game w') = cities (game w) /\
  Forall2 (fun c c' => c_isDestroyed c = true -> c_isDestroyed c' = true)
          (deref_cities (store w) (cities (game w)))
          (deref_cities (store w') (cities (game w'))).
Proof.
  cbv zeta.
  pose proof (foldl_store_later rnd further (run rnd cmds)) as [Hc Hb].
  pose proof (foldl_layout rnd cmds initial_world layout_initial)
    as (Hcs & _ & Hcb & _).
  fold (run rnd cmds) in *.
  pose proof (foldl_layout rnd further (run rnd cmds)
                (foldl_layout rnd cmds initial_world layout_initial))
    as (Hcs' & _).
  split; [|split; [|split]].
  - intros l c Hl. destruct (Hc l c Hl) as (c' & Hl' & Hp & Hd). eauto.
  - intros l b Hl. destruct (Hb l b Hl) as (b' & Hl' & Hp & Hd). eauto.
  - congruence.
  - rewrite Hcs', Hcs. unfold deref_cities.
    eapply Forall2_impl; [apply omap_lookup_later; [exact Hc|]|].
    + apply (f_equal length) in Hcb. rewrite !length_fmap in Hcb.
      unfold deref_cities in Hcb. rewrite Hcb. reflexivity.
    + intros c c' [_ Hd]. exact Hd.
Qed.

(** ** Levels and the status *)

(** X4.  [nextLevel] raises the level by one, keeps the score, empties
    the rockets, the missiles and the explosions, and leaves the cities as
    they are, destroyed or not.  The batteries of the new level are new
    objects, the batteries of the old one with [isDestroyed] false and
    their missiles refilled; the old objects, those of [INITIAL_STATE]
    among them, are not touched. *)
Theorem next_level (w : World) :
  let w' := nextLevel w in
  let bs' := deref_batteries (store w') (batteries (game w')) in
  status (game w') = PLAYING /\
  level (game w') = level (game w) + 1 /\
  score (game w') = score (game w) /\
  rockets (game w') = [] /\ playerMissiles (game w') = [] /\
  explosions (game w') = [] /\
  deref_cities (store w') (cities (game w'))
  = deref_cities (store w) (cities (game w)) /\
  bs' = restore_battery <$> deref_batteries (store w) (batteries (game w)) /\
  Forall (fun b => b_isDestroyed b = false /\
                   b_missiles b = b_maxMissiles b) bs' /\
  (forall l b, battery_objs (store w) !! l = Some b ->
               battery_objs (store w') !! l = Some b).
Proof.
  cbv zeta.
  assert (Hbs : deref_batteries (store (nextLevel w))
                  (batteries (game (nextLevel w)))
                = restore_battery
                    <$> deref_batteries (store w) (batteries (game w))).
  { unfold nextLevel, deref_batteries at 1.
    cbn [store game batteries battery_objs].
    apply omap_lookup_appended. }
  repeat split; try reflexivity; try assumption.
  - rewrite Hbs. apply Forall_fmap, Forall_forall. intros b _.
    split; reflexivity.
  - intros l b Hl. cbn. apply lookup_app_l_Some. exact Hl.
Qed.

Lemma exec_idle (rnd : nat -> float) (w : World) (c : Command) :
  status (game w) <> PLAYING -> starts c = false -> exec rnd w c = w.
Proof.
  intros Hnot Hc. destruct c as [|x y isGravity| | |]; try discriminate;
    cbn [exec].
  - unfold handleCanvasClick. destruct (decide _); [reflexivity|contradiction].
  - unfold triggerMegaExplosion.
    destruct (decide _); [reflexivity|contradiction].
  - unfold update. destruct (decide _); [reflexivity|contradiction].
Qed.

(** X5.  A game that is not being played is frozen: ticks, shots and area
    clears, in any number and order, leave the whole state as it is; only
    [startGame] and [nextLevel] get it going again. *)
Theorem frozen_unless_playing (rnd : nat -> float) (w : World)
    (cmds : list Command) :
  status (game w) <> PLAYING ->
  Forall (fun c => starts c = false) cmds ->
  foldl (exec rnd) w cmds = w.
Proof.
  intros Hnot Hcmds. induction Hcmds as [|c cmds Hc _ IH]; [reflexivity|].
  cbn [foldl]. rewrite (exec_idle rnd w c Hnot Hc). exact IH.
Qed.

Lemma frozen_unless_playing_witness :
  let cmds := [Tick; Fire 300 200 false; AreaClear; Tick] in
  status (game lost_game) <> PLAYING /\
  Forall (fun c => starts c = false) cmds /\
  foldl (exec three_rockets) lost_game cmds = lost_game.
Proof.
  assert (Hlost : status (game lost_game) <> PLAYING).
  { vm_compute. discriminate. }
  assert (Hcmds : Forall (fun c => starts c = false)
                         [Tick; Fire 300 200 false; AreaClear; Tick]).
  { repeat constructor. }
  split; [exact Hlost|]. split; [exact Hcmds|].
  exact (frozen_unless_playing three_rockets lost_game _ Hlost Hcmds).
Defined.

(** What one command does to the status. *)
Lemma exec_status (rnd : nat -> float) (w : World) (c : Command) :
  match c with
  | Start | AdvanceLevel => status (game (exec rnd w c)) = PLAYING
  | Fire _ _ _ | AreaClear => status (game (exec rnd w c)) = status (game w)
  | Tick =>
      status (game (exec rnd w c)) = status (game w) \/
      (status (game w) = PLAYING /\
       (status (game (exec rnd w c)) = WON \/
        status (game (exec rnd w c)) = LOST))
  end.
Proof.
  destruct c as [|x y isGravity| | |]; cbn [exec]; try reflexivity.
  - unfold handleCanvasClick.
    destruct (decide (status (game w) <> PLAYING)); [reflexivity|].
    destruct (decide (_ = (-1)%Z)); [reflexivity|].
    destruct (index_at _ _); [|reflexivity].
    destruct (if negb isGravity then _ else _). reflexivity.
  - unfold triggerMegaExplosion.
    destruct (decide (status (game w) <> PLAYING)); [reflexivity|].
    destruct (mega_grid _ _ _). reflexivity.
  - destruct (decide (status (game w) = PLAYING)) as [Hplaying|Hnot].
    + tick_steps rnd w. unfold next_status.
      destruct (_ <=? sc); [right; auto|].
      destruct (all_batteries_destroyed _ _); [right; auto|left; reflexivity].
    + left. unfold update. destruct (decide _); [reflexivity|contradiction].
Qed.

(** X6.  The status moves as a state machine: a tick leaves it as it is
    or takes it from PLAYING to WON or LOST; a shot and an area clear keep
    it; [startGame] and [nextLevel] set it to PLAYING.  So START is the
    status of a run exactly when no game and no level was ever started:
    nothing leads back to it. *)
Theorem status_machine (rnd : nat -> float) (cmds : list Command)
    (c : Command) :
  let w := run rnd cmds in
  let w' := exec rnd w c in
  (starts c = true -> status (game w') = PLAYING) /\
  (starts c = false ->
   status (game w') = status (game w) \/
   (c = Tick /\ status (game w) = PLAYING /\
    (status (game w') = WON \/ status (game w') = LOST))) /\
  (status (game w) = START <-> Forall (fun c => starts c = false) cmds).
Proof.
  cbv zeta. split; [|split].
  - pose proof (exec_status rnd (run rnd cmds) c) as Hc.
    destruct c; cbn; intros; try discriminate; exact Hc.
  - pose proof (exec_status rnd (run rnd cmds) c) as Hc.
    destruct c; cbn; intros; try discriminate; try (left; exact Hc).
    destruct Hc as [Hc|Hc]; [left; exact Hc|right; auto].
  - split.
    + induction cmds as [|c0 cmds IH] using rev_ind; [constructor|].
      unfold run in *. rewrite foldl_app. cbn [foldl]. intros Hstart.
      pose proof (exec_status rnd (foldl (exec rnd) initial_world cmds) c0)
        as Hc.
      apply Forall_app.
      destruct c0; cbv beta iota in Hc; rewrite ?Hstart in Hc;
        try discriminate;
        (split; [apply IH|repeat constructor]); try congruence.
      destruct Hc as [Hc|(_ & [Hc|Hc])]; congruence.
    + intros Hcmds. unfold run.
      assert (Hgen : forall w, status (game w) = START ->
                status (game (foldl (exec rnd) w cmds)) = START).
      { induction Hcmds as [|c0 cmds Hc0 _ IH]; intros w Hw; [exact Hw|].
        cbn [foldl]. rewrite (exec_idle rnd w c0); [apply IH, Hw| |exact Hc0].
        rewrite Hw. discriminate. }
      apply Hgen. reflexivity.
Qed.

Lemma status_machine_witness :
  starts Start = true /\
  status (game (exec quiet (run quiet [Tick]) Start)) = PLAYING /\
  starts Tick = false /\
  (status (game (exec three_rockets before_impact Tick))
   = status (game before_impact) \/
   (Tick = Tick /\ status (game before_impact) = PLAYING /\
    (status (game (exec three_rockets before_impact Tick)) = WON \/
     status (game (exec three_rockets before_impact Tick)) = LOST))).
Proof.
  split; [reflexivity|]. split.
  - exact (proj1 (status_machine quiet [Tick] Start) eq_refl).
  - split; [reflexivity|].
    exact (proj1 (proj2 (status_machine three_rockets
                           (Start :: repeat Tick 91) Tick)) eq_refl).
Defined.

(** ** Spawning *)

Lemma index_at_In {A} (arr : list A) (i : option Z) (x : A) :
  index_at arr i = Some x -> In x arr.
Proof.
  unfold index_at. destruct i as [z|]; [|discriminate].
  destruct (0 <=? z)%Z; [|discriminate].
  intros Hl. apply list_elem_of_In. eapply list_elem_of_lookup_2. exact Hl.
Qed.

(** X7.  [spawnRocket] returns no rocket, after one call of
    [Math.random()], when no city and no battery of the game stands.  A
    rocket that it returns, after four calls, aims at the position of a
    city or of a battery of the game that is not destroyed; it starts on
    the top edge, at its own starting point, with progress 0. *)
Theorem spawn_rocket (rnd : nat -> float) (st : Store) (g : GameState)
    (n : nat) :
  (spawn_targets st g = [] -> spawnRocket rnd st g n = (None, S n)) /\
  (forall r n', spawnRocket rnd st g n = (Some r, n') ->
     ((exists c, In c (deref_cities st (cities g)) /\
                 c_isDestroyed c = false /\ r_target r = c_pos c) \/
      (exists b, In b (deref_batteries st (batteries g)) /\
                 b_isDestroyed b = false /\ r_target r = b_pos b)) /\
     r_pos r = r_start r /\ pt_y (r_start r) = 0 /\ r_progress r = 0 /\
     n' = (n + 4)%nat).
Proof.
  unfold spawnRocket, Math_random. split.
  - intros ->. reflexivity.
  - intros r n'.
    destruct (decide (length (spawn_targets st g) = 0%nat)); [discriminate|].
    destruct (index_at _ _) as [target|] eqn:Hpick; [|discriminate].
    intros Heq. injection Heq as <- <-. cbn.
    split; [|repeat split; lia].
    apply index_at_In in Hpick. unfold spawn_targets in Hpick.
    apply in_app_or in Hpick as [Hpick|Hpick];
      apply In_fmap in Hpick as (o & -> & Ho);
      apply filter_In in Ho as [Ho Hstanding]; [left|right];
      exists o; (repeat split; [assumption|]).
    + destruct (c_isDestroyed o); [discriminate|reflexivity].
    + destruct (b_isDestroyed o); [discriminate|reflexivity].
Qed.

Lemma spawn_rocket_witness :
  exists r,
    spawnRocket three_rockets initial_store INITIAL_STATE 1
    = (Some r, 5%nat) /\
    r_target r = mkPoint 40 570 /\ r_progress r = 0.
Proof.
  eexists. split; [vm_compute; reflexivity|]. split; [reflexivity|].
  refine (proj1 (proj2 (proj2 (proj2
    (proj2 (spawn_rocket three_rockets initial_store INITIAL_STATE 1)
           _ 5%nat _))))).
  vm_compute. reflexivity.
Defined.

Lemma spawn_phase_extra (rnd : nat -> float) (w : World) :
  exists extra n,
    (length extra <= 1)%nat /\
    (forall rs, spawn_phase rnd (with_rockets w rs) = (rs ++ extra, n)) /\
    spawn_phase rnd w = (rockets (game w) ++ extra, n).
Proof.
  unfold spawn_phase, Math_random.
  cbn [game with_rockets rockets level store rand_calls].
  change (fun rs : list Rocket =>
            spawnRocket rnd (store w) (game (with_rockets w rs)))
    with (fun _ : list Rocket => spawnRocket rnd (store w) (game w)).
  assert (Hsame : forall rs n,
             spawnRocket rnd (store w)
               {| score := score (game w); status := status (game w);
                  cities := cities (game w);
                  batteries := batteries (game w); rockets := rs;
                  playerMissiles := playerMissiles (game w);
                  explosions := explosions (game w);
                  level := level (game w) |} n
             = spawnRocket rnd (store w) (game w) n) by reflexivity.
  destruct (rnd (rand_calls w) <? 0.015 + level (game w) * 0.003).
  - destruct (spawnRocket rnd (store w) (game w) (S (rand_calls w)))
      as [spawned n] eqn:Hspawn.
    exists (match spawned with Some r => [r] | None => [] end), n.
    split; [destruct spawned; cbn; lia|]. split; [|reflexivity].
    intros rs. rewrite Hsame, Hspawn. reflexivity.
  - exists [], (S (rand_calls w)).
    split; [cbn; lia|]. split; reflexivity.
Qed.

(** X8.  A tick never adds more than one rocket. *)
Theorem one_rocket_per_tick (rnd : nat -> float) (w : World) :
  (length (rockets (game (update rnd w)))
   <= length (rockets (game w)) + 1)%nat.
Proof.
  destruct (decide (status (game w) = PLAYING)) as [Hplaying|Hnot].
  - tick_steps rnd w.
    destruct (spawn_phase_extra rnd w) as (extra & n & Hextra & _ & Hsp).
    rewrite Hspawn in Hsp. injection Hsp as -> ->.
    destruct (update_rockets_lists _ _ _ _ _ _ _ _ _ _ Hrockets)
      as [Hflying _].
    destruct (update_explosions_lists _ _ _ _ _ _ _ _ _ _ Hexplosions)
      as (_ & _ & Hlen & _).
    assert (Hrs1 : (length rs1 <= length (rockets (game w) ++ extra))%nat).
    { rewrite Hflying.
      etransitivity; [apply filter_length_le|].
      rewrite length_fmap. reflexivity. }
    rewrite length_app in Hrs1. lia.
  - unfold update. destruct (decide _); [lia|contradiction].
Qed.

(** ** What the pull does and does not do *)

Lemma move_rocket_same_flight (r r' : Rocket) :
  same_flight r r' -> move_rocket r' = move_rocket r.
Proof.
  intros (Hid & Hstart & Htarget & Hprogress & Hspeed).
  unfold move_rocket. rewrite Hid, Hstart, Htarget, Hprogress, Hspeed.
  reflexivity.
Qed.

Lemma update_rockets_same_flight (rnd : nat -> float) (cs bs : list nat)
    (rs rs' : list Rocket) :
  Forall2 same_flight rs rs' ->
  forall st n,
    update_rockets rnd rs' cs bs st n = update_rockets rnd rs cs bs st n.
Proof.
  induction 1 as [|r r' rs rs' Hr _ IH]; intros st n; [reflexivity|].
  cbn [update_rockets]. rewrite IH, (move_rocket_same_flight r r' Hr).
  reflexivity.
Qed.

Lemma same_flight_refl (r : Rocket) : same_flight r r.
Proof. repeat split. Qed.

(** The tick of a game that is being played, step by step. *)
Lemma update_playing (rnd : nat -> float) (w : World) :
  status (game w) = PLAYING ->
  update rnd w
  = let '(rs0, n0) := spawn_phase rnd w in
    let '(rs1, st, hits, n1) :=
      update_rockets rnd rs0 (cities (game w)) (batteries (game w))
                     (store w) n0 in
    let '(ms, blasts, n2) := update_missiles rnd (playerMissiles (game w)) n1 in
    let '(es, pushed, rs2, sc, n3) :=
      update_explosions rnd (explosions (game w) ++ hits ++ blasts) rs1
                        (score (game w)) n2 in
    {| store := st;
       game := {| score := sc;
                  status := next_status (status (game w)) sc
                              (level (game w) * WIN_SCORE)
                              (all_batteries_destroyed st
                                 (batteries (game w)));
                  cities := cities (game w);
                  batteries := batteries (game w);
                  rockets := rs2;
                  playerMissiles := ms;
                  explosions := es ++ pushed;
                  level := level (game w) |};
       rand_calls := n3 |}.
Proof.
  intros Hplaying. unfold update.
  destruct (decide _) as [?|_]; [congruence|reflexivity].
Qed.

(** X9.  The pull of one tick is forgotten by the next: step 2 computes
    the position of every rocket anew from its start, its target and its
    progress, so the tick of a game that is being played gives the same
    state whatever positions the rockets hold when it starts. *)
Theorem pull_is_forgotten (rnd : nat -> float) (w : World)
    (rs : list Rocket) :
  status (game w) = PLAYING ->
  Forall2 same_flight (rockets (game w)) rs ->
  update rnd (with_rockets w rs) = update rnd w.
Proof.
  intros Hplaying Hrs.
  rewrite (update_playing rnd w Hplaying).
  rewrite (update_playing rnd (with_rockets w rs) Hplaying).
  destruct (spawn_phase_extra rnd w) as (extra & n & _ & Hsp' & Hsp).
  rewrite Hsp, Hsp'.
  cbn [with_rockets game store cities batteries playerMissiles explosions
       score level status].
  rewrite (update_rockets_same_flight rnd _ _ (rockets (game w) ++ extra)
                                      (rs ++ extra)); [reflexivity|].
  apply Forall2_app; [exact Hrs|].
  apply Forall_Forall2_diag, Forall_forall. intros r _.
  apply same_flight_refl.
Qed.

Lemma pull_is_forgotten_witness :
  let w := with_rockets (startGame initial_world) [falling_rocket] in
  status (game w) = PLAYING /\
  Forall2 same_flight (rockets (game w)) [centred_rocket] /\
  update quiet (with_rockets w [centred_rocket]) = update quiet w.
Proof.
  assert (Hrs : Forall2 same_flight [falling_rocket] [centred_rocket]).
  { repeat constructor. }
  split; [reflexivity|]. split; [exact Hrs|].
  exact (pull_is_forgotten quiet
           (with_rockets (startGame initial_world) [falling_rocket])
           [centred_rocket] eq_refl Hrs).
Defined.

Lemma filter_sublist {A} (p : A -> bool) (l : list A) :
  sublist (List.filter p l) l.
Proof.
  induction l as [|a l IH]; cbn; [constructor|].
  destruct (p a); [apply sublist_skip|apply sublist_cons]; exact IH.
Qed.

Lemma hit_rockets_plain (rnd : nat -> float) (e : Explosion)
    (rs : list Rocket) (sc : float) (n : nat) rs' sc' pushed n' :
  hit_rockets rnd e false rs sc n = (rs', sc', pushed, n') ->
  sublist rs' rs.
Proof.
  intros Hhit.
  destruct (hit_rockets_lists _ _ _ _ _ _ _ _ _ _ Hhit) as (-> & _).
  change (attract e false) with (fun r : Rocket => r).
  rewrite list_fmap_id. apply filter_sublist.
Qed.

(** X10.  Only a gravity explosion moves a rocket: when no explosion has a
    maximal radius above [EXPLOSION_MAX_RADIUS], the rockets that step 4
    returns are rockets it was given, unchanged and in the same order. *)
Theorem no_gravity_no_pull (rnd : nat -> float) (es : list Explosion) :
  Forall (fun e => (EXPLOSION_MAX_RADIUS <? e_maxRadius e) = false) es ->
  forall (rs : list Rocket) (sc : float) (n : nat) es' pushed rs' sc' n',
    update_explosions rnd es rs sc n = (es', pushed, rs', sc', n') ->
    sublist rs' rs.
Proof.
  induction 1 as [|e0 es He0 _ IH]; intros rs sc n es' pushed' rs' sc' n' Hrun;
    cbn [update_explosions] in Hrun.
  - injection Hrun as <- <- <- <- <-. reflexivity.
  - destruct (update_explosions rnd es rs sc n)
      as [[[[es1 pushed] rs1] sc1] n1] eqn:Hrest.
    specialize (IH _ _ _ _ _ _ _ _ Hrest).
    cbv beta iota zeta in Hrun. rewrite He0 in Hrun.
    destruct (evolve e0) as [e|].
    + destruct (hit_rockets rnd e false rs1 sc1 n1)
        as [[[rs2 sc2] secondary] n2] eqn:Hhit.
      injection Hrun as <- <- <- <- <-.
      etransitivity; [exact (hit_rockets_plain _ _ _ _ _ _ _ _ _ Hhit)|].
      exact IH.
    + injection Hrun as <- <- <- <- <-. exact IH.
Qed.

Lemma no_gravity_no_pull_witness :
  let e := new_explosion (ExpHitId 0.5) (mkPoint 490 283)
                         EXPLOSION_MAX_RADIUS in
  Forall (fun e => (EXPLOSION_MAX_RADIUS <? e_maxRadius e) = false) [e] /\
  sublist (snd (fst (fst (update_explosions quiet [e] [falling_rocket]
                            0 0))))
          [falling_rocket].
Proof.
  assert (He : Forall (fun e => (EXPLOSION_MAX_RADIUS <? e_maxRadius e)
                                = false)
                      [new_explosion (ExpHitId 0.5) (mkPoint 490 283)
                                     EXPLOSION_MAX_RADIUS]).
  { repeat constructor. }
  split; [exact He|].
  destruct (update_explosions quiet _ [falling_rocket] 0 0)
    as [[[[es' pushed] rs'] sc'] n'] eqn:Hrun.
  exact (no_gravity_no_pull quiet _ He _ _ _ _ _ _ _ _ Hrun).
Defined.

(** ** The flight of a missile *)

Lemma missile_progress_table (k : nat) :
  (k <= 40)%nat -> (1 <=? missile_progress k) = (k =? 40)%nat.
Proof.
  intros Hk.
  assert (Hall : forallb (fun k => Bool.eqb (1 <=? missile_progress k)
                                            (k =? 40)%nat)
                         (seq 0 41) = true) by (vm_compute; reflexivity).
  apply Bool.eqb_prop.
  apply (proj1 (forallb_forall _ _) Hall). apply in_seq. lia.
Qed.

Lemma move_missile_in_flight (m : PlayerMissile) :
  in_flight m -> arrived (move_missile m) = false ->
  in_flight (move_missile m).
Proof.
  intros [Hspeed (k & Hk & Hprogress)] Hnot. split; [exact Hspeed|].
  assert (Hnext : m_progress (move_missile m) = missile_progress (S k)).
  { cbn [move_missile m_progress]. rewrite Hprogress, Hspeed. reflexivity. }
  exists (S k). split; [|exact Hnext].
  unfold arrived in Hnot. rewrite Hnext in Hnot.
  rewrite missile_progress_table in Hnot by lia.
  apply Nat.eqb_neq in Hnot. lia.
Qed.

Lemma handleCanvasClick_missiles (rnd : nat -> float) (x y : float)
    (isGravity : bool) (w : World) :
  exists shots,
    playerMissiles (game (handleCanvasClick rnd x y isGravity w))
    = playerMissiles (game w) ++ shots /\
    Forall (fun m => m_progress m = 0 /\ m_speed m = PLAYER_MISSILE_SPEED)
           shots.
Proof.
  unfold handleCanvasClick.
  destruct (decide (status (game w) <> PLAYING));
    [exists []; rewrite app_nil_r; split; [reflexivity|constructor]|].
  destruct (decide (_ = (-1)%Z));
    [exists []; rewrite app_nil_r; split; [reflexivity|constructor]|].
  destruct (index_at _ _) as [battery|];
    [|exists []; rewrite app_nil_r; split; [reflexivity|constructor]].
  destruct isGravity; cbn [negb].
  - eexists. split; [reflexivity|]. repeat constructor.
  - pose proof (spread_shot_targets rnd [-25; 0; 25] battery x y
                  (bestBatteryIndex
                     (deref_batteries (store w) (batteries (game w))) x)
                  (rand_calls w)) as [_ Hf].
    destruct (spread_shot rnd [-25; 0; 25] battery x y _ (rand_calls w))
      as [shots calls]. cbn [fst] in Hf.
    exists shots. split; [reflexivity|].
    eapply Forall_impl; [exact Hf|]. intros m (_ & _ & Hp & Hs & _). auto.
Qed.

Lemma exec_in_flight (rnd : nat -> float) (w : World) (c : Command) :
  Forall in_flight (playerMissiles (game w)) ->
  Forall in_flight (playerMissiles (game (exec rnd w c))).
Proof.
  intros Hw. destruct c as [|x y isGravity| | |]; cbn [exec].
  - constructor.
  - destruct (handleCanvasClick_missiles rnd x y isGravity w)
      as (shots & -> & Hshots).
    apply Forall_app. split; [exact Hw|].
    eapply Forall_impl; [exact Hshots|].
    intros m [Hp Hs]. split; [exact Hs|]. exists 0%nat. split; [lia|exact Hp].
  - unfold triggerMegaExplosion.
    destruct (decide (status (game w) <> PLAYING)); [exact Hw|].
    destruct (mega_grid _ _ _). exact Hw.
  - constructor.
  - destruct (decide (status (game w) = PLAYING)) as [Hplaying|Hnot].
    + tick_steps rnd w.
      destruct (update_missiles_lists _ _ _ _ _ _ Hmissiles) as [-> _].
      apply Forall_forall. intros m' Hm'.
      apply list_elem_of_In, filter_In in Hm' as [Hm' Hnot].
      apply In_fmap in Hm' as (m & -> & Hm).
      apply move_missile_in_flight.
      * apply (proj1 (Forall_forall _ _) Hw). apply list_elem_of_In, Hm.
      * destruct (arrived (move_missile m)); [discriminate|reflexivity].
    + unfold update. destruct (decide _); [exact Hw|contradiction].
Qed.

Lemma run_in_flight (rnd : nat -> float) (cmds : list Command) :
  Forall in_flight (playerMissiles (game (run rnd cmds))).
Proof.
  unfold run.
  assert (Hgen : forall w, Forall in_flight (playerMissiles (game w)) ->
            Forall in_flight
                   (playerMissiles (game (foldl (exec rnd) w cmds)))).
  { induction cmds as [|c cmds IH]; intros w Hw; [exact Hw|].
    cbn [foldl]. apply IH, exec_in_flight, Hw. }
  apply Hgen. constructor.
Qed.

(** X11.  A missile flies for 40 ticks, however far its target is.
    Whatever commands have run, every missile of the game has the speed
    [PLAYER_MISSILE_SPEED] and the progress of some number [k] of ticks
    below 40, [k] times that speed added up from 0; it reaches its target
    in the coming tick exactly when [k] is 39. *)
Theorem missile_flight_time (rnd : nat -> float) (cmds : list Command) :
  Forall (fun m =>
            m_speed m = PLAYER_MISSILE_SPEED /\
            exists k, (k < 40)%nat /\
                      m_progress m = missile_progress k /\
                      ((1 <=? m_progress m + m_speed m) = true <->
                       k = 39%nat))
         (playerMissiles (game (run rnd cmds))).
Proof.
  eapply Forall_impl; [apply run_in_flight|].
  intros m [Hspeed (k & Hk & Hprogress)]. split; [exact Hspeed|].
  exists k. split; [exact Hk|]. split; [exact Hprogress|].
  rewrite Hprogress, Hspeed.
  change (missile_progress k + PLAYER_MISSILE_SPEED)
    with (missile_progress (S k)).
  rewrite missile_progress_table by lia.
  rewrite Nat.eqb_eq. lia.
Qed.

(** ** The life of an explosion *)

Lemma aged_trajectory (e : Explosion) (k : nat) :
  e_radius e = 0 -> e_isExpanding e = true ->
  aged k e
  = match trajectory (e_maxRadius e) k with
    | Some (radius, expanding) => Some (with_radius e radius expanding)
    | None => None
    end.
Proof.
  intros Hr Hx. induction k as [|k IH]; cbn [aged trajectory].
  - destruct e. cbn in *. subst. reflexivity.
  - rewrite IH.
    destruct (trajectory (e_maxRadius e) k) as [[radius expanding]|];
      [|reflexivity].
    rewrite evolve_grow. cbn [with_radius e_maxRadius e_radius e_isExpanding].
    destruct (grow (e_maxRadius e) radius expanding) as [[r x]|]; reflexivity.
Qed.

Lemma lifetime_table (mr : float) (k : nat) :
  In mr radii -> lifetime_ok mr k = true.
Proof.
  intros Hmr.
  assert (Hend : trajectory mr 100 = None /\ (lifetime mr <= 100)%nat).
  { destruct Hmr as [<-|[<-|[<-|[<-|[]]]]]; split; vm_compute;
      try reflexivity; lia. }
  assert (Hall : forallb (lifetime_ok mr) (seq 0 100) = true).
  { destruct Hmr as [<-|[<-|[<-|[<-|[]]]]]; vm_compute; reflexivity. }
  destruct (Nat.lt_ge_cases k 100) as [Hlt|Hge].
  - apply (proj1 (forallb_forall _ _) Hall). apply in_seq. lia.
  - unfold lifetime_ok.
    rewrite (trajectory_none_stays mr 100 (proj1 Hend) k Hge).
    apply negb_true_iff, Nat.ltb_ge. lia.
Qed.

(** X12.  An explosion that the code has created is grown by each of its
    first 17 ticks, the 17th of which turns it to contracting; it is still
    in the list after 84 ticks and the 85th drops it (after 85 and the
    86th, when it is the secondary explosion of a kill).  Its centre, its
    maximal radius and its [id] never change. *)
Theorem explosion_life (e : Explosion) (k : nat) :
  fresh e ->
  (is_Some (aged k e) <-> (k < lifetime (e_maxRadius e))%nat) /\
  (forall e', aged k e = Some e' ->
     (e_isExpanding e' = true <-> (k < 17)%nat) /\
     e_pos e' = e_pos e /\ e_maxRadius e' = e_maxRadius e /\
     e_id e' = e_id e).
Proof.
  intros (Hr & Hx & Hmr).
  pose proof (lifetime_table (e_maxRadius e) k Hmr) as Hok.
  unfold lifetime_ok in Hok. rewrite (aged_trajectory e k Hr Hx).
  destruct (trajectory (e_maxRadius e) k) as [[radius expanding]|].
  - apply andb_true_iff in Hok as [Hlife Hphase].
    apply Nat.ltb_lt in Hlife. apply Bool.eqb_prop in Hphase.
    split; [split; [intros _; exact Hlife|intros _; eexists; reflexivity]|].
    intros e' He'. injection He' as <-. cbn. repeat split.
    + intros ->. symmetry in Hphase. apply Nat.ltb_lt. exact Hphase.
    + intros Hk. rewrite Hphase. apply Nat.ltb_lt. exact Hk.
  - apply negb_true_iff, Nat.ltb_ge in Hok.
    split; [split; [intros [? ?]; discriminate|lia]|discriminate].
Qed.

Lemma explosion_life_witness :
  let e := new_explosion (ExpHitId 0.5) (mkPoint 40 570)
                         EXPLOSION_MAX_RADIUS in
  fresh e /\ is_Some (aged 84 e) /\ ~ is_Some (aged 85 e).
Proof.
  assert (He : fresh (new_explosion (ExpHitId 0.5) (mkPoint 40 570)
                                    EXPLOSION_MAX_RADIUS)).
  { repeat split. now left. }
  split; [exact He|]. split.
  - apply (proj1 (explosion_life _ 84 He)). vm_compute. lia.
  - intros Hsome. apply (proj1 (explosion_life _ 85 He)) in Hsome.
    vm_compute in Hsome. lia.
Defined.

(** ** What a rocket aims at *)









(** ** Ties between batteries *)

Lemma lex_below (f : comparison -> comparison) (ea eb em : Z)
    (ma mb mm : positive) :
  f = (fun c => c) \/ f = CompOpp ->
  match lex f ea ma em mm with Lt => true | _ => false end = true ->
  match lex f eb mb em mm with Lt => true | _ => false end = false ->
  match lex f ea ma eb mb with Lt => true | _ => false end = true.
Proof.
  unfold lex. intros Hf.
  destruct (Z.compare_spec ea em), (Z.compare_spec eb em),
           (Z.compare_spec ea eb);
  destruct (Pos.compare_spec ma mm), (Pos.compare_spec mb mm),
           (Pos.compare_spec ma mb);
  destruct Hf; subst f; simpl; intros; try discriminate; try reflexivity; lia.
Qed.

Lemma SFltb_below (a b m : spec_float) :
  SFltb a m = true -> SFltb b m = false -> b <> S754_nan ->
  SFltb a b = true.
Proof.
  unfold SFltb, SFcompare.
  destruct a as [sa|sa| |sa ma ea], b as [sb|sb| |sb mb eb],
           m as [sm|sm| |sm mm em];
    try destruct sa; try destruct sb; try destruct sm;
    try discriminate; try reflexivity; try (intros _ _ Hnan; now elim Hnan).
  - intros Ha Hb _.
    exact (lex_below CompOpp ea eb em ma mb mm (or_intror eq_refl) Ha Hb).
  - intros Ha Hb _.
    exact (lex_below (fun c => c) ea eb em ma mb mm (or_introl eq_refl) Ha Hb).
Qed.

(** Below what [b] is not below is below [b], when [b] is a number. *)
Lemma ltb_below (a b m : float) :
  (a <? m) = true -> (b <? m) = false -> is_nan b = false ->
  (a <? b) = true.
Proof.
  rewrite !FloatAxioms.ltb_spec. intros Ha Hb Hnan.
  apply (SFltb_below _ _ _ Ha Hb). intros Hb'.
  unfold is_nan in Hnan. rewrite FloatAxioms.eqb_spec, Hb' in Hnan.
  discriminate.
Qed.

Lemma closest_battery_step (b : Battery) (bs : list Battery) (x : float)
    (i best : Z) (minDist : float) :
  closest_battery (b :: bs) x i best minDist
  = closest_battery bs x (i + 1)
      (fst (closest_battery [b] x i best minDist))
      (snd (closest_battery [b] x i best minDist)).
Proof. cbn. destruct (negb (b_isDestroyed b) && _); reflexivity. Qed.

Lemma closest_battery_left (x : float) (bs : list Battery) :
  forall seen best minDist,
    closest_so_far x seen best minDist ->
    leftmost_so_far x seen best minDist ->
    let res := closest_battery bs x (Z.of_nat (length seen)) best minDist in
    leftmost_so_far x (seen ++ bs) (fst res) (snd res).
Proof.
  induction bs as [|b bs IH]; intros seen best minDist Hclosest Hleft.
  - cbn. rewrite app_nil_r. exact Hleft.
  - cbv zeta. rewrite closest_battery_step.
    assert (Hi : (Z.of_nat (length seen) + 1)%Z
                 = Z.of_nat (length (seen ++ [b]))).
    { rewrite length_app. cbn. lia. }
    replace (seen ++ b :: bs) with ((seen ++ [b]) ++ bs)
      by (rewrite <- app_assoc; reflexivity).
    rewrite Hi. apply IH.
    + exact (closest_battery_inv x [b] seen best minDist Hclosest).
    + clear IH. cbn. fold (reach x b).
      destruct Hclosest as [Hmin Hbest].
      destruct (negb (b_isDestroyed b) && (reach x b <? minDist)) eqn:Htest;
        cbn [fst snd]; intros j bj Hj Hstanding Hnan Hlt.
      * apply andb_true_iff in Htest as [_ Hb].
        assert (Hseen : seen !! j = Some bj).
        { rewrite lookup_app_l in Hj by lia. exact Hj. }
        apply (ltb_below _ _ minDist Hb); [|exact Hnan].
        apply Hmin; [|exact Hstanding].
        apply list_elem_of_In. eapply list_elem_of_lookup_2. exact Hseen.
      * apply (Hleft j bj); try assumption.
        destruct Hbest as [[-> _]|(b0 & H0 & Hlook & _)]; [lia|].
        apply lookup_lt_Some in Hlook.
        rewrite lookup_app_l in Hj by lia. exact Hj.
Qed.

(** X14.  Of two standing batteries at the same distance of the click the
    one on the left fires: the battery that the search chooses is strictly
    closer to the click than every standing battery before it in the
    list. *)
Theorem leftmost_battery_wins_ties (x : float) (bs : list Battery)
    (j : nat) (b : Battery) :
  let best := bestBatteryIndex bs x in
  bs !! j = Some b -> b_isDestroyed b = false ->
  is_nan (reach x b) = false -> (Z.of_nat j < best)%Z ->
  exists battery,
    bs !! Z.to_nat best = Some battery /\
    (reach x battery <? reach x b) = true.
Proof.
  cbv zeta. unfold bestBatteryIndex. intros Hj Hstanding Hnan Hlt.
  assert (Hinit : closest_so_far x [] (-1)%Z infinity).
  { split; [intros ? []|]. left. split; reflexivity. }
  assert (Hleft : leftmost_so_far x [] (-1)%Z infinity).
  { intros ? ? Hnone. discriminate. }
  pose proof (closest_battery_left x bs [] _ _ Hinit Hleft) as Hl.
  pose proof (closest_battery_inv x bs [] _ _ Hinit) as Hc.
  change (leftmost_so_far x bs
            (fst (closest_battery bs x 0 (-1) infinity))
            (snd (closest_battery bs x 0 (-1) infinity))) in Hl.
  change (closest_so_far x bs
            (fst (closest_battery bs x 0 (-1) infinity))
            (snd (closest_battery bs x 0 (-1) infinity))) in Hc.
  destruct (closest_battery bs x 0 (-1) infinity) as [best minDist].
  cbn [fst snd] in *.
  destruct Hc as [_ [[-> _]|(battery & _ & Hlook & _ & -> & _)]]; [lia|].
  exists battery. split; [exact Hlook|].
  exact (Hl j b Hj Hstanding Hnan Hlt).
Qed.

Lemma leftmost_battery_wins_ties_witness :
  let bs := battery_objs initial_store in
  let b := initial_battery 0 (40, 30) in
  bs !! 0%nat = Some b /\ b_isDestroyed b = false /\
  is_nan (reach 580 b) = false /\
  (Z.of_nat 0 < bestBatteryIndex bs 580)%Z /\
  exists battery,
    bs !! Z.to_nat (bestBatteryIndex bs 580) = Some battery /\
    (reach 580 battery <? reach 580 b) = true.
Proof.
  assert (Hbest : (Z.of_nat 0 < bestBatteryIndex (battery_objs initial_store)
                                                 580)%Z).
  { vm_compute. reflexivity. }
  split; [reflexivity|]. split; [reflexivity|]. split; [reflexivity|].
  split; [exact Hbest|].
  exact (leftmost_battery_wins_ties 580 (battery_objs initial_store) 0
           (initial_battery 0 (40, 30)) eq_refl eq_refl eq_refl Hbest).
Defined.
